(** * Prapti command interpreter: a shallow embedding and its properties

    Embedded sources:
    - [src/prapti/core/command_interpreter.py]: [_join_alternatives],
      [run_action], [command_regex], [_interpret_command],
      [interpret_commands], [config_root_regex], [is_config_root];
    - [src/prapti/core/execution_state.py]: [ExecutionState];
    - [src/prapti/plugins/prapti_test_responder.py]: [TestResponder].

    Code of the repository that these files import but that is not part of
    the sources at hand ([configuration.py], [action.py], [logger.py],
    [command_message.py]) is either taken as a parameter (class [Host]) or
    modelled from the specification, and marked as such. *)

From stdpp Require Import base option list gmap strings.
From Stdlib Require Import Ascii String NArith ZArith Lia.

Open Scope string_scope.

(* ===================================================================== *)
(** * Part I: the model *)
(* ===================================================================== *)

(** ** Characters and strings

    Command text is a Python [str].  The model covers text whose code points
    are below 256: a character is an [ascii] and [code] is its code point.
    The classes below are those of Python's [re] for [str] patterns (which
    are Unicode-aware) restricted to that range. *)

Definition code (c : ascii) : N := N_of_ascii c.

Definition in_range (lo hi : N) (c : ascii) : bool :=
  ((lo <=? code c) && (code c <=? hi))%N.

(** [\s], which is also the set that [str.strip()] removes:
    TAB LF VT FF CR, FS GS RS US, SPACE, NEL and NBSP. *)
Definition is_space (c : ascii) : bool :=
  in_range 9 13 c || in_range 28 32 c || (code c =? 133)%N || (code c =? 160)%N.

(** [\w]: [str.isalnum()] or underscore. *)
Definition is_word (c : ascii) : bool :=
  in_range 48 57 c || in_range 65 90 c || (code c =? 95)%N || in_range 97 122 c
  || (code c =? 170)%N || in_range 178 179 c || (code c =? 181)%N
  || in_range 185 186 c || in_range 188 190 c || in_range 192 214 c
  || in_range 216 246 c || in_range 248 255 c.

(** [.] without DOTALL: anything but a line feed. *)
Definition is_not_newline (c : ascii) : bool := negb (code c =? 10)%N.

(** The class [[\w\-_./\\]] of [command_regex]. *)
Definition is_name_char (c : ascii) : bool :=
  is_word c || Ascii.eqb c "-" || Ascii.eqb c "_" || Ascii.eqb c "."
  || Ascii.eqb c "/" || Ascii.eqb c "\".

Fixpoint take_while (p : ascii -> bool) (s : string) : string :=
  match s with
  | String c t => if p c then String c (take_while p t) else EmptyString
  | EmptyString => EmptyString
  end.

Fixpoint drop_while (p : ascii -> bool) (s : string) : string :=
  match s with
  | String c t => if p c then drop_while p t else s
  | EmptyString => EmptyString
  end.

Definition is_empty (s : string) : bool :=
  match s with
  | EmptyString => true
  | String _ _ => false
  end.

Fixpoint rstrip (s : string) : string :=
  match s with
  | EmptyString => EmptyString
  | String c t =>
      let t' := rstrip t in
      if is_empty t' && is_space c then EmptyString else String c t'
  end.

(** [str.strip()] *)
Definition strip (s : string) : string := rstrip (drop_while is_space s).

(** [sep.join(l)] *)
Fixpoint join (sep : string) (l : list string) : string :=
  match l with
  | [] => EmptyString
  | [x] => x
  | x :: rest => x ++ sep ++ join sep rest
  end.

(** ** Regular expressions

    A backtracking matcher for the fragment of Python's [re] syntax that the
    two patterns of the source use.  Quantifiers are greedy and alternatives
    are tried left to right, as in [re]; a continuation stands for the rest
    of the pattern, so that a later failure resumes the most recent
    choice. *)

Inductive regex : Type :=
| Eps                               (* the empty pattern *)
| Bol                               (* ^ *)
| Eol                               (* $ *)
| Chr (c : ascii)                   (* a literal character *)
| Star (p : ascii -> bool)          (* C* for a character class C *)
| Plus (p : ascii -> bool)          (* C+ for a character class C *)
| Opt (r : regex)                   (* r? *)
| Group (n : nat) (r : regex)       (* the n-th capturing group (r) *)
| Alt (r1 r2 : regex)               (* r1|r2 *)
| Seq (r1 r2 : regex).              (* r1 r2 *)

(** Captured groups, most recent first. *)
Definition captures := list (nat * string).

Definition cont := nat -> string -> captures -> option captures.

Fixpoint star_class (p : ascii -> bool) (pos : nat) (s : string)
    (caps : captures) (k : cont) : option captures :=
  match s with
  | String c t =>
      if p c then
        match star_class p (S pos) t caps k with
        | Some m => Some m
        | None => k pos s caps
        end
      else k pos s caps
  | EmptyString => k pos s caps
  end.

(** [$] without MULTILINE: at the end, or just before a final line feed. *)
Definition at_end (s : string) : bool :=
  match s with
  | EmptyString => true
  | String c EmptyString => (code c =? 10)%N
  | String _ (String _ _) => false
  end.

(** [rmatch r pos s caps k]: match [r] at offset [pos], where [s] is the text
    from [pos] on, then continue with [k]. *)
Fixpoint rmatch (r : regex) (pos : nat) (s : string) (caps : captures)
    (k : cont) : option captures :=
  match r with
  | Eps => k pos s caps
  | Bol => if Nat.eqb pos 0 then k pos s caps else None
  | Eol => if at_end s then k pos s caps else None
  | Chr c =>
      match s with
      | String c' t => if Ascii.eqb c c' then k (S pos) t caps else None
      | EmptyString => None
      end
  | Star p => star_class p pos s caps k
  | Plus p =>
      match s with
      | String c t => if p c then star_class p (S pos) t caps k else None
      | EmptyString => None
      end
  | Opt r1 =>
      match rmatch r1 pos s caps k with
      | Some m => Some m
      | None => k pos s caps
      end
  | Group n r1 =>
      rmatch r1 pos s caps
        (fun pos' s' caps' => k pos' s' ((n, substring 0 (pos' - pos) s) :: caps'))
  | Alt r1 r2 =>
      match rmatch r1 pos s caps k with
      | Some m => Some m
      | None => rmatch r2 pos s caps k
      end
  | Seq r1 r2 =>
      rmatch r1 pos s caps (fun pos' s' caps' => rmatch r2 pos' s' caps' k)
  end.

Definition cat (rs : list regex) : regex := foldr Seq Eps rs.

Definition lit (s : string) : regex := cat (map Chr (list_ascii_of_string s)).

(** [re.match(r, s)]: anchored at offset 0, free at the end. *)
Definition re_match (r : regex) (s : string) : option captures :=
  rmatch r 0 s [] (fun _ _ caps => Some caps).

(** [match.group(n)]; [None] for a group that took no part in the match. *)
Fixpoint group (m : captures) (n : nat) : option string :=
  match m with
  | [] => None
  | (i, s) :: m' => if Nat.eqb i n then Some s else group m' n
  end.

(** Truth value of [match.group(n)]: [None] and the empty string are false. *)
Definition truthy (o : option string) : bool :=
  match o with
  | Some s => negb (is_empty s)
  | None => false
  end.

(** [command_regex], piece by piece, in the order of the pattern:
    - [^]                   start of the text;
    - [(!)?]                group 1, an optional exclamation mark;
    - [\s*]                 white space;
    - [([\w\-_./\\]+)]      group 2, the name;
    - [(?:\s*(=)|\s+|$)]    white space and group 3, an equals sign; or white
                            space, at least one character; or the end;
    - group 4, any number of characters other than a line feed. *)
Definition command_regex : regex :=
  cat [Bol; Opt (Group 1 (Chr "!")); Star is_space; Group 2 (Plus is_name_char);
       Alt (Seq (Star is_space) (Group 3 (Chr "="))) (Alt (Plus is_space) Eol);
       Group 4 (Star is_not_newline)].

(** [config_root_regex]: [^\s*(prapti\.)?(config_root)\s*(=)\s*(true)\s*] *)
Definition config_root_regex : regex :=
  cat [Bol; Star is_space; Opt (Group 1 (lit "prapti.")); Group 2 (lit "config_root");
       Star is_space; Group 3 (Chr "="); Star is_space; Group 4 (lit "true");
       Star is_space].

(** *** The command grammar, read off directly

    The grammar of the docstring of [_interpret_command], written as a
    deterministic scanner.  It is not part of the source; [command_regex]
    is compared with it in Part II. *)

Definition split_excl (s : string) : bool * string :=
  match s with
  | String c t => if Ascii.eqb "!" c then (true, t) else (false, s)
  | EmptyString => (false, s)
  end.

Definition parse_tail (s3 : string) : option (bool * string) :=
  let s4 := drop_while is_space s3 in
  let no_equals :=
    match s3 with
    | EmptyString => Some (false, EmptyString)
    | String c _ =>
        if is_space c then Some (false, take_while is_not_newline s4) else None
    end in
  match s4 with
  | String c t =>
      if Ascii.eqb "=" c then Some (true, take_while is_not_newline t) else no_equals
  | EmptyString => no_equals
  end.

(** [(has_exclamation, name, is_assignment, remainder)] *)
Definition parse_command (s : string) : option (bool * string * bool * string) :=
  let '(excl, s1) := split_excl s in
  let s2 := drop_while is_space s1 in
  match take_while is_name_char s2 with
  | EmptyString => None
  | name =>
      match parse_tail (drop_while is_name_char s2) with
      | Some (eq, rest) => Some (excl, name, eq, rest)
      | None => None
      end
  end.

(** The groups of a match for a parsed command. *)
Definition caps_tail (caps : captures) (r : bool * string) : captures :=
  (4, snd r) :: (if fst r then [(3, "=")] else []) ++ caps.

Definition caps_command (r : bool * string * bool * string) : captures :=
  let '(excl, name, eq, rest) := r in
  (4, rest) :: (if eq then [(3, "=")] else [])
    ++ (2, name) :: (if excl then [(1, "!")] else []).

(** ** Python objects

    A Python variable holds a reference.  Where the source compares objects
    with [is] or assigns to an attribute, the model keeps the address of the
    object next to its immutable contents ([Ref]), and the mutable attribute
    in a store indexed by addresses ([results] below). *)

Definition ObjId := nat.

Record Ref (A : Type) : Type := mkRef { addr : ObjId; obj : A }.
Arguments mkRef {A} _ _.
Arguments addr {A} _.
Arguments obj {A} _.

(** [a is b], for [b] possibly [None] *)
Definition is_ {A : Type} (a : Ref A) (b : option (Ref A)) : bool :=
  match b with
  | Some b' => Nat.eqb (addr a) (addr b')
  | None => false
  end.

Inductive Exception : Type :=
| IndexError
| AssertionError
| TypeError
| Raised (what : string).     (* any other exception, raised by a collaborator *)

(** Outcome of running code on a state of type [S]: a value, or an exception
    that is propagating; either way with the state reached so far. *)
Inductive Res (S A : Type) : Type :=
| Ok (a : A) (s : S)
| Exn (e : Exception) (s : S).
Arguments Ok {S A} _ _.
Arguments Exn {S A} _ _.

Definition M (S A : Type) : Type := S -> Res S A.

Definition ret {S A : Type} (a : A) : M S A := fun s => Ok a s.

Definition raise {S A : Type} (e : Exception) : M S A := fun s => Exn e s.

Definition bind {S A B : Type} (m : M S A) (f : A -> M S B) : M S B :=
  fun s =>
    match m s with
    | Ok a s' => f a s'
    | Exn e s' => Exn e s'
    end.

Notation "x <- m ;; k" := (bind m (fun x => k))
  (at level 100, m at next level, k at level 200, right associativity).
Notation "m ;; k" := (bind m (fun _ => k))
  (at level 100, k at level 200, right associativity).

(** [for x in l: body(x)] *)
Fixpoint for_each {S A : Type} (l : list A) (body : A -> M S unit) : M S unit :=
  match l with
  | [] => ret tt
  | x :: rest => body x ;; for_each rest body
  end.

(** ** Data model *)

(** Modelled from the spec: [SourceLocation] (core/source_location.py is not
    among the sources; section 3): an immutable pointer into the document.
    The interpreter only passes it on. *)
Record SourceLocation : Type := mkSourceLocation {
  file_path : string;
  line : nat;
  column : nat;
}.

(** Where a diagnostic points: a source location, or a bare file path. *)
Inductive Place : Type :=
| AtLocation (source_loc : SourceLocation)
| AtPath (path : string).

Inductive Level : Type := LError | LWarning | LInfo | LDebug.

Record Diagnostic : Type := mkDiagnostic {
  level : Level;
  diag_code : option string;
  message : string;
  place : Place;
}.

(** Modelled from the spec: [DiagnosticsLogger] (core/logger.py is not among
    the sources; section 6): the sink accepts diagnostics and never raises.
    The model keeps them in the order of the calls. *)
Definition DiagnosticsLogger := list Diagnostic.

(** [log.error(code, message, source_loc)] *)
Definition log_error (code message : string) (source_loc : SourceLocation)
    (log : DiagnosticsLogger) : DiagnosticsLogger :=
  (log ++ [mkDiagnostic LError (Some code) message (AtLocation source_loc)])%list.

(** [log.debug(message, path)] *)
Definition log_debug (message path : string) (log : DiagnosticsLogger) : DiagnosticsLogger :=
  (log ++ [mkDiagnostic LDebug None message (AtPath path)])%list.

(** Modelled from the spec: [Command] (core/command_message.py is not among
    the sources; section 3), with the attributes that [interpret_commands]
    reads.  Its [result] attribute is kept in the [results] store. *)
Record Command : Type := mkCommand {
  text : string;
  cmd_is_enabled : bool;
  source_loc : SourceLocation;
}.

(** An element of [message.content]: a [str] or a [Command]
    ([isinstance(item, Command)] tells them apart). *)
Inductive ContentItem : Type :=
| TextItem (s : string)
| CommandItem (c : Ref Command).

(** Modelled from the spec: [Message] (core/command_message.py is not among
    the sources; section 3), with the attributes that the sources read. *)
Record Message : Type := mkMessage {
  role : string;
  name : option string;
  content : list ContentItem;
  is_enabled : bool;
  is_private : bool;
}.

(** [Message(role=..., name=..., content=...)]: enabled and public. *)
Definition new_Message (role : string) (name : option string)
    (content : list ContentItem) : Message :=
  mkMessage role name content true false.

(** What a command can result in: [None], a [str], or a [Message]. *)
Inductive Result : Type :=
| RNone
| RStr (s : string)
| RMessage (m : Message).

(** Configuration values.  A [float] is kept as its binary64 bit pattern. *)
#[warnings="-register-all"]
Inductive Value : Type :=
| VNone
| VBool (b : bool)
| VInt (z : Z)
| VFloat (bits : Z)
| VStr (s : string)
| VList (l : list Value).

Inductive FieldType : Type :=
| TBool | TInt | TFloat | TStr | TList (t : FieldType).

(** Modelled from the spec: [VarRef] (core/configuration.py is not among the
    sources); section 6 of the specification: a plugin supplies pairs
    [(local_field_name, VarRef(root_path))]. *)
Record VarRef : Type := mkVarRef { var_name : string }.

(** Modelled from the spec: a configuration object (a pydantic model in the
    source) with the late-bound fields declared for it (sections 3 and 6). *)
Record Configuration : Type := mkConfiguration {
  fields : gmap string Value;
  var_refs : list (string * VarRef);
}.

(** Modelled from the spec: a field of the root configuration: its declared
    type, its current value, and whether it has been explicitly assigned
    since its default (sections 4.3 and 9). *)
Record FieldSlot : Type := mkFieldSlot {
  slot_type : FieldType;
  slot_value : Value;
  slot_assigned : bool;
}.

(** Modelled from the spec: [RootConfiguration], a tree of named fields
    addressed by dotted paths (section 3), kept as a map from paths. *)
Abbreviation RootConfiguration := (gmap string FieldSlot).

(** Index of a plugin-supplied callable in [action_function] of [Host]. *)
Definition FunctionId := nat.

(** Modelled from the spec: [Action] (core/action.py is not among the
    sources; section 3), with the attributes that [run_action] reads. *)
Record Action : Type := mkAction {
  qualified_name : string;
  exclamation_only : bool;
  function : FunctionId;
  plugin_config : option Configuration;
}.

(** Modelled from the spec: [core_state.actions], the registry of actions
    (section 4.2), kept as the list of registered actions. *)
Definition ActionNamespace := list Action.

Record CoreState : Type := mkCoreState { actions : ActionNamespace }.

(** [ExecutionState] of execution_state.py.  [selected_responder_context] is
    left out (its class is not among the sources and nothing modelled here
    reads it).  [private_core_state] is [None] by default (line 27): a state
    holds a core state only once one has been stored in it. *)
Record ExecutionState : Type := mkExecutionState {
  log : DiagnosticsLogger;
  input_file_path : string;
  user_prapti_config_dir : option string;
  prapticonfig_dirs : list string;
  root_config : RootConfiguration;
  message_sequence : list (Ref Message);
  responses : list Message;
  private_core_state : option CoreState;
  test_exfil : gmap string Configuration;
}.

Definition set_log (l : DiagnosticsLogger) (st : ExecutionState) : ExecutionState :=
  mkExecutionState l (input_file_path st) (user_prapti_config_dir st)
    (prapticonfig_dirs st) (root_config st) (message_sequence st) (responses st)
    (private_core_state st) (test_exfil st).

Definition set_root_config (rc : RootConfiguration) (st : ExecutionState) : ExecutionState :=
  mkExecutionState (log st) (input_file_path st) (user_prapti_config_dir st)
    (prapticonfig_dirs st) rc (message_sequence st) (responses st)
    (private_core_state st) (test_exfil st).

Definition set_test_exfil (x : gmap string Configuration) (st : ExecutionState) : ExecutionState :=
  mkExecutionState (log st) (input_file_path st) (user_prapti_config_dir st)
    (prapticonfig_dirs st) (root_config st) (message_sequence st) (responses st)
    (private_core_state st) x.

(** Modelled from the spec: [get_private_core_state(state)] of
    core/_core_execution_state.py, which is not among the sources: the
    typesafe access to the slot [private_core_state] (section 3; the comment
    at line 27 of execution_state.py).  It returns the core state that the
    slot holds and raises TypeError when the slot holds none. *)
Definition get_private_core_state : M ExecutionState CoreState :=
  fun state =>
    match private_core_state state with
    | Some core_state => Ok core_state state
    | None => Exn TypeError state
    end.

(** [state.log.error(code, message, source_loc)] *)
Definition state_log_error (code message : string) (source_loc : SourceLocation)
    : M ExecutionState unit :=
  fun state => Ok tt (set_log (log_error code message source_loc (log state)) state).

(** [ActionContext(state=..., root_config=..., plugin_config=...,
    source_loc=..., log=...)], with the fields that [run_action] passes
    (line 33). *)
Record ActionContext : Type := mkActionContext {
  ctx_state : ExecutionState;
  ctx_root_config : RootConfiguration;
  ctx_plugin_config : option Configuration;
  ctx_source_loc : SourceLocation;
  ctx_log : DiagnosticsLogger;
}.

(** ** The collaborators of the interpreter

    Three callables that [command_interpreter.py] uses come from outside
    the sources: the action registry's [lookup_action], [assign_field] of the
    configuration module, and the functions that plugins register as actions.
        A plugin function gets the context (and through it the whole state) and
    may return, change the state, or raise; it does not write the [result]
    of a command (section 6 of the specification). *)
Class Host : Type := mkHost {
  lookup_action : ActionNamespace -> string -> list Action;
  assign_field :
    RootConfiguration -> string -> string -> SourceLocation -> DiagnosticsLogger ->
    Res (RootConfiguration * DiagnosticsLogger) unit;
  action_function :
    FunctionId -> string -> string -> ActionContext -> Res ExecutionState Result;
}.

(** ** [command_interpreter.py] *)

(** What a pass works on: the execution state, and the [result] attribute of
    every [Command] object that has been written so far, by address.  The
    sequence itself is an argument; as the docstring of [interpret_commands]
    says, the step does not modify it. *)
Record World : Type := mkWorld {
  state : ExecutionState;
  results : gmap ObjId Result;
}.

Definition lift_state {A : Type} (m : M ExecutionState A) : M World A :=
  fun w =>
    match m (state w) with
    | Ok a st => Ok a (mkWorld st (results w))
    | Exn e st => Exn e (mkWorld st (results w))
    end.

(** [item.result = r] *)
Definition set_result (c : Ref Command) (r : Result) : M World unit :=
  fun w => Ok tt (mkWorld (state w) (<[addr c := r]> (results w))).

(** [", ".join(alternatives[:-1]) + " or " + alternatives[-1]];
    [None] stands for the IndexError of [alternatives[-1]] on an empty list. *)
Definition _join_alternatives (alternatives : list string) : option string :=
  match last alternatives with
  | Some final => Some (join ", " (removelast alternatives) ++ " or " ++ final)
  | None => None
  end.

(** [match.group(n)] for a group that takes part in every match: groups 2
    and 4 of [command_regex] (lemma [command_regex_parse] in Part II), so the
    second case is never reached. *)
Definition group_text (o : option string) : string :=
  match o with
  | Some s => s
  | None => EmptyString
  end.

Section Interpreter.
Context `{Host}.

Definition run_action (has_exclamation : bool) (action_name raw_args : string)
    (source_loc : SourceLocation) : M ExecutionState Result :=
  core_state <- get_private_core_state ;;
  fun state =>
    let matches := lookup_action (actions core_state) action_name in
    match List.length matches with
    | 0 =>
        (state_log_error "action-not-found"
           ("couldn't run action '" ++ action_name ++ "'. action not found.")
           source_loc ;;
         ret RNone) state
    | 1 =>
        match matches with
        | action :: _ =>
            if exclamation_only action && negb has_exclamation then
              (state_log_error "excl-only-action-without-excl"
                 ("didn't run action '" ++ action_name
                  ++ "'. action is !-only but written without a '!'")
                 source_loc ;;
               ret RNone) state
            else
              let context :=
                mkActionContext state (root_config state) (plugin_config action)
                  source_loc (log state) in
              action_function (function action) action_name raw_args context
        | [] => raise IndexError state
        end
    | _ =>
        match _join_alternatives (map qualified_name matches) with
        | Some alternatives =>
            (state_log_error "ambiguous-action-name"
               ("didn't run action '" ++ action_name
                ++ "'. action name is ambiguous, did you mean: " ++ alternatives)
               source_loc ;;
             ret RNone) state
        | None => raise IndexError state
        end
    end.

(** [assign_field(state.root_config, name, rhs, source_loc, state.log)]:
    both arguments are objects of [state], changed in place. *)
Definition state_assign_field (name rhs : string) (source_loc : SourceLocation)
    : M ExecutionState unit :=
  fun state =>
    match assign_field (root_config state) name rhs source_loc (log state) with
    | Ok _ (rc, lg) => Ok tt (set_log lg (set_root_config rc state))
    | Exn e (rc, lg) => Exn e (set_log lg (set_root_config rc state))
    end.

Definition _interpret_command (command_text : string) (is_final_message : bool)
    (source_loc : SourceLocation) : M ExecutionState Result :=
  match re_match command_regex command_text with
  | Some match_ =>
      let has_exclamation := truthy (group match_ 1) in
      let name := group_text (group match_ 2) in
      let equals_sign := group match_ 3 in
      let rhs :=
        if truthy (group match_ 4) then strip (group_text (group match_ 4))
        else EmptyString in
      if negb has_exclamation || (has_exclamation && is_final_message) then
        if truthy equals_sign then
          if Nat.eqb (String.length rhs) 0 then
            state_log_error "skiping-empty-assignment"
              ("skipping configuration assignment with no right-hand-side '"
               ++ command_text ++ "'")
              source_loc ;;
            ret RNone
          else
            state_assign_field name rhs source_loc ;;
            ret RNone
        else run_action has_exclamation name rhs source_loc
      else ret RNone
  | None =>
      state_log_error "unknown-command"
        ("couldn't interpret command '" ++ command_text ++ "'") source_loc ;;
      ret RNone
  end.

(** Lines 75-83 of [_interpret_command] as a function of the parsed
    command: what executing a command that passed the exclamation test
    does.  Not a function of the source; the properties are stated with
    it. *)
Definition execute_command (excl : bool) (name : string) (is_assignment : bool)
    (rest command_text : string) (source_loc : SourceLocation)
    : M ExecutionState Result :=
  if is_assignment then
    if is_empty (strip rest) then
      state_log_error "skiping-empty-assignment"
        ("skipping configuration assignment with no right-hand-side '"
         ++ command_text ++ "'")
        source_loc ;;
      ret RNone
    else
      state_assign_field name (strip rest) source_loc ;;
      ret RNone
  else run_action excl name (strip rest) source_loc.

(** Body of the inner loop of [interpret_commands] (lines 101-102). *)
Definition interpret_item (is_final_message : bool) (item : ContentItem) : M World unit :=
  match item with
  | CommandItem c =>
      if cmd_is_enabled (obj c) then
        r <- lift_state
               (_interpret_command (text (obj c)) is_final_message (source_loc (obj c))) ;;
        set_result c r
      else ret tt
  | TextItem _ => ret tt
  end.

(** Body of the outer loop of [interpret_commands] (lines 98-102). *)
Definition interpret_message (final_message : option (Ref Message))
    (message : Ref Message) : M World unit :=
  if is_enabled (obj message) then
    let is_final_message := is_ message final_message in
    for_each (content (obj message)) (interpret_item is_final_message)
  else ret tt.

(** [message_sequence[-1] if is_final_sequence else None] *)
Definition final_message_of (message_sequence : list (Ref Message))
    (is_final_sequence : bool) : M World (option (Ref Message)) :=
  if is_final_sequence then
    match last message_sequence with
    | Some m => ret (Some m)
    | None => raise IndexError
    end
  else ret None.

(** [interpret_commands(message_sequence, state, is_final_sequence)]; the
    state is the one that the monad threads. *)
Definition interpret_commands (message_sequence : list (Ref Message))
    (is_final_sequence : bool) : M World unit :=
  final_message <- final_message_of message_sequence is_final_sequence ;;
  for_each message_sequence (interpret_message final_message).

End Interpreter.

(** [is_config_root]: two nested loops that return [True] at the first
    enabled command of an enabled message whose text matches, and [False]
    when the loops run out.  It reads the sequence and nothing else. *)
Definition matches_config_root (item : ContentItem) : bool :=
  match item with
  | CommandItem c =>
      cmd_is_enabled (obj c) && bool_decide (is_Some (re_match config_root_regex (text (obj c))))
  | TextItem _ => false
  end.

Definition is_config_root (config_message_sequence : list (Ref Message)) : bool :=
  existsb
    (fun message => is_enabled (obj message) && existsb matches_config_root (content (obj message)))
    config_message_sequence.

(** ** Collaborators modelled from the specification *)

Section Assignment.
(** How a right-hand side is converted to a value of a declared type, and
    the text of a diagnostic, are left open by the specification. *)
Variable convert : FieldType -> string -> option Value.
Variable explain : string -> string -> string -> string.

(** Modelled from the spec: [assign_field] of core/configuration.py, which
    is not among the sources (section 4.3): resolve the dotted name to a
    field, or report field-not-found; convert the right-hand side to the
    declared type of the field and assign, or report a conversion failure
    and keep the prior value.  It never raises. *)
Definition assign_field_spec (root_config : RootConfiguration)
    (dotted_name rhs : string) (source_loc : SourceLocation)
    (log : DiagnosticsLogger) : Res (RootConfiguration * DiagnosticsLogger) unit :=
  match root_config !! dotted_name with
  | None =>
      Ok tt (root_config,
             log_error "field-not-found"
               (explain "field-not-found" dotted_name rhs) source_loc log)
  | Some slot =>
      match convert (slot_type slot) rhs with
      | None =>
          Ok tt (root_config,
                 log_error "type-conversion-failure"
                   (explain "type-conversion-failure" dotted_name rhs) source_loc log)
      | Some v =>
          Ok tt (<[dotted_name := mkFieldSlot (slot_type slot) v true]> root_config, log)
      end
  end.
End Assignment.

Fixpoint contains_dot (s : string) : bool :=
  match s with
  | EmptyString => false
  | String c t => Ascii.eqb c "." || contains_dot t
  end.

(** The part of a qualified name after its last dot. *)
Fixpoint bare_name (s : string) : string :=
  match s with
  | EmptyString => EmptyString
  | String _ t => if contains_dot s then bare_name t else s
  end.

(** Modelled from the spec: [lookup_action] of the action registry, which is
    not among the sources (section 4.2): an action is found by its qualified
    name and by its bare name; all matches are returned. *)
Definition lookup_action_spec (actions : ActionNamespace) (name : string) : list Action :=
  List.filter
    (fun a => String.eqb (qualified_name a) name
              || String.eqb (bare_name (qualified_name a)) name)
    actions.

(** The first [VarRef] declared for a field. *)
Fixpoint var_ref_of (var_refs : list (string * VarRef)) (field_name : string) : option VarRef :=
  match var_refs with
  | [] => None
  | (f, r) :: rest => if String.eqb f field_name then Some r else var_ref_of rest field_name
  end.

(** Modelled from the spec: the rule of section 9,
    [resolve(field) = if has_explicit_value(root_path) then read(root_path)
    else local_value(field)]. *)
Definition resolve_field (root_config : RootConfiguration)
    (var_refs : list (string * VarRef)) (field_name : string) (local : Value) : Value :=
  match var_ref_of var_refs field_name with
  | Some ref =>
      match root_config !! var_name ref with
      | Some slot => if slot_assigned slot then slot_value slot else local
      | None => local
      end
  | None => local
  end.

(** Modelled from the spec: [resolve_var_refs] of core/configuration.py,
    which is not among the sources (section 4.4): a resolved copy of the
    configuration object; nothing is cached and nothing else changes. *)
Definition resolve_var_refs (config : Configuration) (root_config : RootConfiguration)
    (log : DiagnosticsLogger) : Configuration :=
  mkConfiguration
    (map_imap (fun k v => Some (resolve_field root_config (var_refs config) k v))
       (fields config))
    (var_refs config).

(** Modelled from the spec: what the host makes of the value that
    [construct_configuration] returns: the configuration object together
    with its late-bound fields (section 6). *)
Definition register_configuration
    (constructed : gmap string Value * list (string * VarRef)) : Configuration :=
  mkConfiguration (fst constructed) (snd constructed).

(** ** [prapti_test_responder.py] *)

(** [TestResponderPluginConfiguration()] *)
Definition TestResponderPluginConfiguration : gmap string Value :=
  list_to_map [("an_int", VInt 0); ("a_string", VStr "test")].

(** [TestResponderConfiguration()] *)
Definition TestResponderConfiguration : gmap string Value :=
  list_to_map
    [("a_bool", VBool false); ("an_int", VInt 0); ("a_float", VFloat 0);
     ("a_string", VStr "test"); ("a_list_of_strings", VList []);
     ("temperature", VInt 1); ("model", VStr "test"); ("n", VInt 1)].

(** Modelled from the spec: [ResponderContext] (core/responder.py is not
    among the sources; section 3), with the attributes that [TestResponder]
    reads.  [context.state] is the state that
    [generate_responses] runs on; [context.root_config] and [context.log] are
    taken to be the objects [state.root_config] and [state.log], as in the
    [ActionContext] that [run_action] builds. *)
Record ResponderContext : Type := mkResponderContext {
  rc_plugin_config : option Configuration;
  rc_responder_config : option Configuration;
}.

(** [TestResponder.construct_configuration] *)
Definition construct_configuration (context : ResponderContext)
    : gmap string Value * list (string * VarRef) :=
  (TestResponderConfiguration,
   [("model", mkVarRef "model"); ("temperature", mkVarRef "temperature");
    ("n", mkVarRef "n")]).

(** [context.log.debug(message, context.state.input_file_path)] *)
Definition state_log_debug (message : string) : M ExecutionState unit :=
  fun state => Ok tt (set_log (log_debug message (input_file_path state) (log state)) state).

(** [resolve_var_refs(config, context.root_config, context.log)] *)
Definition state_resolve_var_refs (config : Configuration) : M ExecutionState Configuration :=
  fun state => Ok (resolve_var_refs config (root_config state) (log state)) state.

(** [context.state.test_exfil[key] = config] *)
Definition exfil (key : string) (config : Configuration) : M ExecutionState unit :=
  fun state => Ok tt (set_test_exfil (<[key := config]> (test_exfil state)) state).

Section TestResponder.
(** [repr] of a configuration object, as the f-strings print it. *)
Variable repr : Configuration -> string.

(** [TestResponder.generate_responses] *)
Definition generate_responses (input_ : list (Ref Message)) (context : ResponderContext)
    : M ExecutionState (list Message) :=
  match rc_plugin_config context with
  | None => raise AssertionError
  | Some plugin_config =>
      state_log_debug
        ("prapti.test.test_responder: input: plugin_config = " ++ repr plugin_config) ;;
      plugin_config <- state_resolve_var_refs plugin_config ;;
      state_log_debug
        ("prapti.test.test_responder: resolved: plugin_config = " ++ repr plugin_config) ;;
      exfil "test_responder_resolved_plugin_config" plugin_config ;;
      match rc_responder_config context with
      | None => raise AssertionError
      | Some responder_config =>
          state_log_debug
            ("prapti.test.test_responder: input: responder_config = "
             ++ repr responder_config) ;;
          responder_config <- state_resolve_var_refs responder_config ;;
          state_log_debug
            ("prapti.test.test_responder: resolved: responder_config = "
             ++ repr responder_config) ;;
          exfil "test_responder_resolved_responder_config" responder_config ;;
          ret [new_Message "assistant" None [TextItem "Test!"]]
      end
  end.
End TestResponder.

(** The value of a field of the responder configuration that the last call of
    [generate_responses] resolved and left in [test_exfil]. *)
Definition resolved_responder_field (state : ExecutionState) (field : string) : option Value :=
  match test_exfil state !! "test_responder_resolved_responder_config" with
  | Some config => fields config !! field
  | None => None
  end.

(** [s] without its prefix [l], if it has that prefix. *)
Fixpoint strip_prefix (l s : string) : option string :=
  match l with
  | EmptyString => Some s
  | String a l' =>
      match s with
      | String b s' => if Ascii.eqb a b then strip_prefix l' s' else None
      | EmptyString => None
      end
  end.

(** The texts that [config_root_regex] is meant for, read off directly:
    white space, an optional [prapti.], [config_root], white space, an equals
    sign, white space, [true], and then anything.  Not part of the source;
    [config_root_regex] is compared with it in Part II. *)
Definition config_root_text (s : string) : bool :=
  let s1 := drop_while is_space s in
  let s2 := match strip_prefix "prapti." s1 with
            | Some t => t
            | None => s1
            end in
  match strip_prefix "config_root" s2 with
  | Some s3 =>
      match drop_while is_space s3 with
      | String c s4 =>
          Ascii.eqb "=" c
          && match strip_prefix "true" (drop_while is_space s4) with
             | Some _ => true
             | None => false
             end
      | EmptyString => false
      end
  | None => false
  end.

Definition matched (o : option captures) : bool :=
  match o with
  | Some _ => true
  | None => false
  end.

(** ** The two patterns in pieces

    The tail of each pattern from each of its positions on, named so that
    Part II can follow the matcher through the pattern one piece at a time,
    and, for [config_root_regex], the texts each tail accepts. *)

(** The continuation at the end of a pattern: [re.match] accepts. *)
Definition accept : cont := fun _ _ caps => Some caps.

Module CommandRegex.

Definition tail_re := Seq (Group 4 (Star is_not_newline)) Eps.
Definition alt_re :=
  Alt (Seq (Star is_space) (Group 3 (Chr "="))) (Alt (Plus is_space) Eol).
Definition name_re := Group 2 (Plus is_name_char).
Definition rest_re := Seq (Star is_space) (Seq name_re (Seq alt_re tail_re)).

End CommandRegex.

Module ConfigRootRegex.

Definition has_true (s : string) : bool :=
  match strip_prefix "true" s with Some _ => true | None => false end.
Definition has_equals (s : string) : bool :=
  match s with
  | String c s4 => Ascii.eqb "=" c && has_true (drop_while is_space s4)
  | EmptyString => false
  end.
Definition has_config_root (s : string) : bool :=
  match strip_prefix "config_root" s with
  | Some s3 => has_equals (drop_while is_space s3)
  | None => false
  end.

Definition r_end := Seq (Star is_space) Eps.
Definition r_true := Seq (Group 4 (lit "true")) r_end.
Definition r_equals := Seq (Group 3 (Chr "=")) (Seq (Star is_space) r_true).
Definition r_config_root :=
  Seq (Group 2 (lit "config_root")) (Seq (Star is_space) r_equals).
Definition r_prapti := Seq (Opt (Group 1 (lit "prapti."))) r_config_root.

End ConfigRootRegex.

(** The enabled commands of the enabled messages, in document order: the
    addresses of the objects whose [result] a pass writes. *)
Definition visited_item (item : ContentItem) : list ObjId :=
  match item with
  | CommandItem c => if cmd_is_enabled (obj c) then [addr c] else []
  | TextItem _ => []
  end.

Definition visited_message (message : Ref Message) : list ObjId :=
  if is_enabled (obj message) then flat_map visited_item (content (obj message)) else [].

Definition visited (message_sequence : list (Ref Message)) : list ObjId :=
  flat_map visited_message message_sequence.

(** Every character of [s] is in the class [p]. *)
Fixpoint all_chars (p : ascii -> bool) (s : string) : bool :=
  match s with
  | EmptyString => true
  | String c t => p c && all_chars p t
  end.

(** [needle] occurs in [hay]. *)
Definition occurs_in (needle hay : string) : Prop :=
  exists before after, hay = before ++ needle ++ after.

(** ** Sample hosts, states and documents for the examples *)

Module Sample.

Fixpoint digits_value (acc : Z) (s : string) : option Z :=
  match s with
  | EmptyString => Some acc
  | String c t =>
      if in_range 48 57 c then digits_value (10 * acc + Z.of_N (code c) - 48) t
      else None
  end.

Definition convert (t : FieldType) (rhs : string) : option Value :=
  match t with
  | TInt => if is_empty rhs then None else VInt <$> digits_value 0 rhs
  | TStr => Some (VStr rhs)
  | TBool =>
      if String.eqb rhs "true" then Some (VBool true)
      else if String.eqb rhs "false" then Some (VBool false)
      else None
  | _ => None
  end.

Definition explain (code name rhs : string) : string :=
  code ++ ": " ++ name ++ " = " ++ rhs.

(** Function 0 reports its arguments; function 1 writes a diagnostic and
    returns a message; every other function raises. *)
Definition functions (f : FunctionId) (name args : string) (context : ActionContext)
    : Res ExecutionState Result :=
  match f with
  | 0 => Ok (RStr (name ++ "(" ++ args ++ ")")) (ctx_state context)
  | 1 => Ok (RMessage (new_Message "assistant" None [TextItem args]))
           (set_log (log_debug name args (ctx_log context)) (ctx_state context))
  | _ => Exn (Raised "RuntimeError") (ctx_state context)
  end.


Definition host : Host :=
  mkHost lookup_action_spec (assign_field_spec convert explain) functions.


Definition registry : ActionNamespace :=
  [mkAction "test.act_name" false 0 None;
   mkAction "test.respond" true 1 None;
   mkAction "test.boom" false 2 None;
   mkAction "one.dup" false 0 None;
   mkAction "two.dup" false 0 None].

Definition root : RootConfiguration :=
  list_to_map
    [("an_int", mkFieldSlot TInt (VInt 0) false);
     ("temperature", mkFieldSlot TInt (VInt 7) false);
     ("model", mkFieldSlot TStr (VStr "default") false)].

Definition state0 : ExecutionState :=
  mkExecutionState [] "doc.md" None [] root [] [] (Some (mkCoreState registry)) ∅.

Definition world0 : World := mkWorld state0 ∅.

(** A state as the dataclass builds it by default: no core state. *)
Definition bare_state : ExecutionState :=
  mkExecutionState [] "doc.md" None [] root [] [] None ∅.

Definition at_line (n : nat) : SourceLocation := mkSourceLocation "doc.md" n 0.

Definition command (a : ObjId) (text : string) : ContentItem :=
  CommandItem (mkRef a (mkCommand text true (at_line a))).

Definition message (a : ObjId) (items : list ContentItem) : Ref Message :=
  mkRef a (mkMessage "user" None items true false).

Definition repr (c : Configuration) : string := "<config>".

Definition responder_context : ResponderContext :=
  mkResponderContext
    (Some (register_configuration (TestResponderPluginConfiguration, [])))
    (Some (register_configuration
             (construct_configuration (mkResponderContext None None)))).

Definition document : list (Ref Message) :=
  [message 10 [command 1 "boom"; command 2 "= 5"];
   message 20 [command 3 "nope"; command 4 "an_int = 42"]].

End Sample.

(** ** [koboldcpp_text_responder.py] *)

(** [log.warning(code, message, source_loc)] *)
Definition log_warning (code message : string) (source_loc : SourceLocation)
    (log : DiagnosticsLogger) : DiagnosticsLogger :=
  (log ++ [mkDiagnostic LWarning (Some code) message (AtLocation source_loc)])%list.

Section Koboldcpp.
(** [message.source_loc], an attribute of a message that the record
    [Message] above does not carry. *)
Variable message_source_loc : Ref Message -> SourceLocation.

(** [log.warning(code, text, message.source_loc)] *)
Definition warn (code text : string) (message : Ref Message) : M DiagnosticsLogger unit :=
  fun log => Ok tt (log_warning code text (message_source_loc message) log).

(** Body of the loop of [convert_message_sequence_to_text_prompt]
    (lines 55-65), from the value of [result] before to its value after. *)
Definition convert_message (message : Ref Message) (result : string)
    : M DiagnosticsLogger string :=
  if negb (is_enabled (obj message)) || is_private (obj message) then ret result
  else if String.eqb (role (obj message)) "prompt" then
    match content (obj message) with
    | [TextItem t] => ret (result ++ t)
    | _ => raise AssertionError
    end
  else if String.eqb (role (obj message)) "user"
          || String.eqb (role (obj message)) "assistant" then
    warn "unsupported-chat-role"
      ("message will not be included in LLM prompt. role '" ++ role (obj message)
       ++ "' is not supported. use '### @prompt:'.")
      message ;;
    ret result
  else
    warn "unrecognised-public-role"
      ("message will not be included in LLM prompt. public role '"
       ++ role (obj message) ++ "' is not recognised.")
      message ;;
    ret result.

Fixpoint convert_messages (message_sequence : list (Ref Message)) (result : string)
    : M DiagnosticsLogger string :=
  match message_sequence with
  | [] => ret result
  | message :: rest =>
      result' <- convert_message message result ;;
      convert_messages rest result'
  end.

(** [convert_message_sequence_to_text_prompt(message_sequence, log)]; the
    log is the state that the monad threads. *)
Definition convert_message_sequence_to_text_prompt
    (message_sequence : list (Ref Message)) : M DiagnosticsLogger string :=
  convert_messages message_sequence EmptyString.

(** What the function is expected to add to the prompt and to the log for
    one message; not part of the source, the properties are stated with
    them. *)
Definition is_public (message : Ref Message) : bool :=
  is_enabled (obj message) && negb (is_private (obj message)).

Definition is_prompt (message : Ref Message) : bool :=
  String.eqb (role (obj message)) "prompt".

Definition prompt_text (message : Ref Message) : string :=
  if is_public message && is_prompt message then
    match content (obj message) with
    | [TextItem t] => t
    | _ => EmptyString
    end
  else EmptyString.

Definition is_flattened (message : Ref Message) : bool :=
  match content (obj message) with
  | [TextItem _] => true
  | _ => false
  end.

Definition role_warning (message : Ref Message) : list Diagnostic :=
  if is_public message && negb (is_prompt message) then
    if String.eqb (role (obj message)) "user"
       || String.eqb (role (obj message)) "assistant" then
      [mkDiagnostic LWarning (Some "unsupported-chat-role")
         ("message will not be included in LLM prompt. role '" ++ role (obj message)
          ++ "' is not supported. use '### @prompt:'.")
         (AtLocation (message_source_loc message))]
    else
      [mkDiagnostic LWarning (Some "unrecognised-public-role")
         ("message will not be included in LLM prompt. public role '"
          ++ role (obj message) ++ "' is not recognised.")
         (AtLocation (message_source_loc message))]
  else [].

Fixpoint concat_strings (l : list string) : string :=
  match l with
  | [] => EmptyString
  | x :: rest => x ++ concat_strings rest
  end.

End Koboldcpp.

(** ** Observations on a pass *)

(** The state that a run has reached, whether it returned or raised. *)
Definition outcome_world {A : Type} (r : Res World A) : World :=
  match r with
  | Ok _ w => w
  | Exn _ w => w
  end.

(** An item that a pass looks at: an enabled command. *)
Definition is_live (item : ContentItem) : bool :=
  match item with
  | CommandItem c => cmd_is_enabled (obj c)
  | TextItem _ => false
  end.

(** The same message object without the items that a pass skips. *)
Definition prune (message : Ref Message) : Ref Message :=
  mkRef (addr message)
    (mkMessage (role (obj message)) (name (obj message))
       (List.filter is_live (content (obj message)))
       (is_enabled (obj message)) (is_private (obj message))).

(** The earlier results [old] under what a run has written. *)
Definition over_results {A : Type} (old : gmap ObjId Result) (r : Res World A)
    : Res World A :=
  match r with
  | Ok a w => Ok a (mkWorld (state w) (results w ∪ old))
  | Exn e w => Exn e (mkWorld (state w) (results w ∪ old))
  end.

(** ** More samples for the examples *)

Module SampleProse.

Definition place (m : Ref Message) : SourceLocation :=
  mkSourceLocation "story.md" (addr m) 0.

Definition opening : Ref Message :=
  mkRef 1 (mkMessage "prompt" None [TextItem "Once upon "] true false).
Definition secret : Ref Message :=
  mkRef 2 (mkMessage "prompt" None [TextItem "the password"] true true).
Definition chat : Ref Message :=
  mkRef 3 (mkMessage "user" None [TextItem "hello"] true false).
Definition odd : Ref Message :=
  mkRef 4 (mkMessage "narrator" None [] true false).
Definition closing : Ref Message :=
  mkRef 5 (mkMessage "prompt" None [TextItem "a time"] true false).
Definition broken : Ref Message :=
  mkRef 6 (mkMessage "prompt" None [TextItem "a"; TextItem "b"] true false).

(** A document whose last message is disabled. *)
Definition closed_document : list (Ref Message) :=
  [Sample.message 10 [Sample.command 1 "!respond now"; Sample.command 2 "an_int = 42"];
   mkRef 20 (mkMessage "user" None [Sample.command 3 "!respond later"] false false)].

End SampleProse.

(** The state that a run on an execution state has reached. *)
Definition outcome_state {A : Type} (r : Res ExecutionState A) : ExecutionState :=
  match r with
  | Ok _ st => st
  | Exn _ st => st
  end.

(** ** Errors in the input, and where a pass stops *)



Section InputErrors.
Variable lookup : ActionNamespace -> string -> list Action.
Variable convert : FieldType -> string -> option Value.

End InputErrors.

Section Reaching.
Context `{Host}.

(** A pass over [message_sequence] from the world [w] comes to the command
    [c] of the message [m] with the world [w1]: [m] is an enabled message of
    the sequence and [c] an enabled command of its content, the loops over
    everything before [c] have returned normally and left [w1], and
    [is_final_message] is the flag of [m] (line 99). *)
Definition reaches (message_sequence : list (Ref Message)) (is_final_sequence : bool)
    (w : World) (m : Ref Message) (c : Ref Command) (is_final_message : bool)
    (w1 : World) : Prop :=
  exists (pre post : list (Ref Message)) (ipre ipost : list ContentItem),
    message_sequence = (pre ++ m :: post)%list
    /\ is_enabled (obj m) = true
    /\ content (obj m) = (ipre ++ CommandItem c :: ipost)%list
    /\ cmd_is_enabled (obj c) = true
    /\ is_final_message = is_final_sequence && is_ m (last message_sequence)
    /\ (for_each pre
          (interpret_message (if is_final_sequence then last message_sequence else None)) ;;
        for_each ipre (interpret_item is_final_message)) w
       = Ok tt w1.

(** The call of [action.function] that [run_action] makes for [action]
    (lines 33-34). *)
Definition call_action (action : Action) (action_name raw_args : string)
    (source_loc : SourceLocation) (state : ExecutionState)
    : Res ExecutionState Result :=
  action_function (function action) action_name raw_args
    (mkActionContext state (root_config state) (plugin_config action)
       source_loc (log state)).

(** An action command [name rest], interpreted in [state], raises [e] and
    leaves [state']: either the state holds no core state and the access to
    it raises TypeError, or the one action found for the name is called and
    its function raises. *)
Definition action_raises (excl : bool) (name rest : string)
    (source_loc : SourceLocation) (state : ExecutionState) (e : Exception)
    (state' : ExecutionState) : Prop :=
  (private_core_state state = None /\ e = TypeError /\ state' = state)
  \/ (exists core_state action,
        private_core_state state = Some core_state
        /\ lookup_action (actions core_state) name = [action]
        /\ (exclamation_only action = false \/ excl = true)
        /\ call_action action name rest source_loc state = Exn e state').

(** An assignment [name = rest], interpreted in [state], raises [e] and
    leaves [state']: [assign_field] raised. *)
Definition assignment_raises (name rest : string) (source_loc : SourceLocation)
    (state : ExecutionState) (e : Exception) (state' : ExecutionState) : Prop :=
  exists root_config' log',
    assign_field (root_config state) name rest source_loc (log state)
    = Exn e (root_config', log')
    /\ state' = set_log log' (set_root_config root_config' state).

End Reaching.

(* ===================================================================== *)
(** * Part II: properties *)
(* ===================================================================== *)

#[local] Set Warnings "-clear-no-such-hyp".

(** ** The matcher on [command_regex]

    Every choice point of [command_regex] is decided by the next character,
    so the backtracking matcher and the scanner [parse_command] agree. *)

Section Greedy.
Variable p : ascii -> bool.
Variable k : cont.

(** If the continuation rejects every text that starts in the class, the
    star keeps all it can take. *)
Lemma star_class_greedy :
  (forall c t q cs, p c = true -> k q (String c t) cs = None) ->
  forall s pos caps,
    star_class p pos s caps k
    = k (pos + String.length (take_while p s)) (drop_while p s) caps.
Proof.
  intros Hk s. induction s as [|c t IH]; intros pos caps; simpl.
  - f_equal. lia.
  - destruct (p c) eqn:Hc; simpl.
    + rewrite IH.
      replace (S pos + _) with (pos + S (String.length (take_while p t))) by lia.
      destruct (k _ _ _) eqn:E; [reflexivity|]. now apply Hk.
    + f_equal. lia.
Qed.

(** The same when the continuation accepts everything. *)
Lemma star_class_total :
  (forall q s cs, k q s cs <> None) ->
  forall s pos caps,
    star_class p pos s caps k
    = k (pos + String.length (take_while p s)) (drop_while p s) caps.
Proof.
  intros Hk s. induction s as [|c t IH]; intros pos caps; simpl.
  - f_equal. lia.
  - destruct (p c) eqn:Hc; simpl.
    + rewrite IH.
      replace (S pos + _) with (pos + S (String.length (take_while p t))) by lia.
      destruct (k _ _ _) eqn:E; [reflexivity|]. now apply Hk in E.
    + f_equal. lia.
Qed.
End Greedy.

Lemma substring_take_while p s :
  substring 0 (String.length (take_while p s)) s = take_while p s.
Proof.
  induction s as [|c t IH]; simpl; [reflexivity|].
  destruct (p c); simpl; [now rewrite IH | reflexivity].
Qed.

Ltac by_cases_on_char c :=
  destruct c as [[] [] [] [] [] [] [] []]; vm_compute; intros;
  try discriminate; auto.

Lemma name_char_facts c :
  is_name_char c = true ->
  is_space c = false /\ Ascii.eqb "=" c = false /\ Ascii.eqb "!" c = false.
Proof. by_cases_on_char c. Qed.

Lemma space_facts c :
  is_space c = true ->
  is_name_char c = false /\ Ascii.eqb "=" c = false /\ Ascii.eqb "!" c = false.
Proof. by_cases_on_char c. Qed.

Lemma space_not_newline c : is_space c = false -> (code c =? 10)%N = false.
Proof. by_cases_on_char c. Qed.

Lemma rmatch_Seq r1 r2 pos s caps k :
  rmatch (Seq r1 r2) pos s caps k
  = rmatch r1 pos s caps (fun pos' s' caps' => rmatch r2 pos' s' caps' k).
Proof. reflexivity. Qed.

Lemma rmatch_Group n r pos s caps k :
  rmatch (Group n r) pos s caps k
  = rmatch r pos s caps
      (fun pos' s' caps' => k pos' s' ((n, substring 0 (pos' - pos) s) :: caps')).
Proof. reflexivity. Qed.

Lemma rmatch_Star p pos s caps k : rmatch (Star p) pos s caps k = star_class p pos s caps k.
Proof. reflexivity. Qed.

Lemma rmatch_Bol s caps k : rmatch Bol 0 s caps k = k 0 s caps.
Proof. reflexivity. Qed.

Lemma rmatch_Opt r pos s caps k :
  rmatch (Opt r) pos s caps k
  = match rmatch r pos s caps k with Some m => Some m | None => k pos s caps end.
Proof. reflexivity. Qed.

Lemma rmatch_Chr c pos s caps k :
  rmatch (Chr c) pos s caps k
  = match s with
    | String c' t => if Ascii.eqb c c' then k (S pos) t caps else None
    | EmptyString => None
    end.
Proof. reflexivity. Qed.

Module CommandRegexFacts.
Import CommandRegex.

Lemma command_regex_shape : command_regex = Seq Bol (Seq (Opt (Group 1 (Chr "!"))) rest_re).
Proof. reflexivity. Qed.

Lemma tail_ok pos s caps :
  rmatch tail_re pos s caps accept = Some ((4, take_while is_not_newline s) :: caps).
Proof.
  cbn [tail_re rmatch]. rewrite star_class_total by (intros; discriminate).
  unfold accept. do 2 f_equal. f_equal.
  replace (pos + _ - pos) with (String.length (take_while is_not_newline s)) by lia.
  apply substring_take_while.
Qed.

Lemma alt_ok (K : cont) pos s caps :
  (forall q t cs, K q t cs = Some ((4, take_while is_not_newline t) :: cs)) ->
  rmatch alt_re pos s caps K = option_map (caps_tail caps) (parse_tail s).
Proof.
  intros HK. cbn [rmatch alt_re].
  rewrite star_class_greedy.
  2:{ intros c t q cs Hc. apply space_facts in Hc as (_ & -> & _). reflexivity. }
  unfold parse_tail.
  set (plus := match s with
               | String c t =>
                   if is_space c then star_class is_space (S pos) t caps K else None
               | EmptyString => None
               end).
  set (direct := match s with
                 | EmptyString => Some (false, EmptyString)
                 | String c _ =>
                     if is_space c
                     then Some (false, take_while is_not_newline (drop_while is_space s))
                     else None
                 end).
  assert (Hplus : match plus with
                  | Some m => Some m
                  | None => if at_end s then K pos s caps else None
                  end = option_map (caps_tail caps) direct).
  { subst plus direct. destruct s as [|c t]; simpl; [now rewrite HK|].
    destruct (is_space c) eqn:Hc.
    - rewrite star_class_total by (intros; rewrite HK; discriminate).
      now rewrite HK.
    - destruct t; [|reflexivity]. now rewrite (space_not_newline _ Hc). }
  cbv beta. cbn [rmatch]. fold plus.
  destruct (drop_while is_space s) as [|c4 t4] eqn:E4.
  - exact Hplus.
  - destruct (Ascii.eqb "=" c4) eqn:Heq.
    + rewrite HK. apply Ascii.eqb_eq in Heq as <-. cbn.
      replace (S _ - _) with 1 by lia. simpl. now destruct t4.
    + exact Hplus.
Qed.

Lemma parse_tail_name_char c t : is_name_char c = true -> parse_tail (String c t) = None.
Proof.
  intros Hc. apply name_char_facts in Hc as (Hs & He & _).
  unfold parse_tail. cbn [drop_while]. rewrite Hs. cbv zeta. now rewrite He.
Qed.

Lemma name_ok pos s caps :
  rmatch (Seq name_re (Seq alt_re tail_re)) pos s caps accept =
  match take_while is_name_char s with
  | EmptyString => None
  | name =>
      option_map (caps_tail ((2, name) :: caps)) (parse_tail (drop_while is_name_char s))
  end.
Proof.
  rewrite rmatch_Seq. unfold name_re. rewrite rmatch_Group. cbn [rmatch].
  destruct s as [|c t]; [reflexivity|]. cbn [take_while drop_while].
  destruct (is_name_char c) eqn:Hc; [|reflexivity].
  rewrite star_class_greedy.
  - rewrite alt_ok by (intros; apply tail_ok). do 3 f_equal.
    replace (S pos + _ - pos) with (S (String.length (take_while is_name_char t))) by lia.
    simpl. now rewrite substring_take_while.
  - intros c' t' q cs Hc'.
    rewrite alt_ok by (intros; apply tail_ok).
    rewrite parse_tail_name_char by assumption. reflexivity.
Qed.

Lemma rest_ok pos s caps :
  rmatch rest_re pos s caps accept =
  match take_while is_name_char (drop_while is_space s) with
  | EmptyString => None
  | name =>
      option_map (caps_tail ((2, name) :: caps))
        (parse_tail (drop_while is_name_char (drop_while is_space s)))
  end.
Proof.
  unfold rest_re. rewrite rmatch_Seq, rmatch_Star. rewrite star_class_greedy.
  - apply name_ok.
  - intros c t q cs Hc. rewrite name_ok. cbn [take_while].
    apply space_facts in Hc as (-> & _). reflexivity.
Qed.

End CommandRegexFacts.

(** [command_regex] accepts exactly the texts that [parse_command] accepts,
    with the same four groups. *)
Lemma command_regex_parse s :
  re_match command_regex s = option_map caps_command (parse_command s).
Proof.
  unfold re_match. rewrite CommandRegexFacts.command_regex_shape.
  change (fun (_ : nat) (_ : string) caps => Some caps) with accept.
  rewrite rmatch_Seq, rmatch_Bol, rmatch_Seq, rmatch_Opt, rmatch_Group, rmatch_Chr.
  rewrite !CommandRegexFacts.rest_ok.
  unfold parse_command, split_excl.
  destruct s as [|c t]; [reflexivity|].
  destruct (Ascii.eqb "!" c) eqn:Hc.
  - apply Ascii.eqb_eq in Hc as <-. rewrite CommandRegexFacts.rest_ok.
    replace (substring 0 (1 - 0) (String "!" t)) with "!" by (simpl; now destruct t).
    destruct (take_while is_name_char (drop_while is_space t)); [reflexivity|].
    destruct (parse_tail _) as [[[] r]|]; reflexivity.
  - destruct (take_while is_name_char (drop_while is_space (String c t))); [reflexivity|].
    destruct (parse_tail _) as [[[] r]|]; reflexivity.
Qed.

(** A parsed command has the exclamation flag exactly when its text begins
    with an exclamation mark. *)
Lemma parse_command_excl text excl name eq rest :
  parse_command text = Some (excl, name, eq, rest) ->
  excl = true <-> exists t, text = String "!" t.
Proof.
  unfold parse_command, split_excl. intros Hp.
  destruct text as [|c t].
  - simpl in Hp. discriminate.
  - destruct (Ascii.eqb "!" c) eqn:Hc.
    + apply Ascii.eqb_eq in Hc as <-.
      destruct (take_while _ _); [discriminate|].
      destruct (parse_tail _) as [[e r]|]; [|discriminate].
      inversion Hp; subst. split; eauto.
    + destruct (take_while _ _); [discriminate|].
      destruct (parse_tail _) as [[e r]|]; [|discriminate].
      inversion Hp; subst. split; [discriminate|].
      intros [t' Ht]. inversion Ht; subst. now rewrite Ascii.eqb_refl in Hc.
Qed.

Lemma length_zero_is_empty s : Nat.eqb (String.length s) 0 = is_empty s.
Proof. now destruct s. Qed.

Section InterpreterFacts.
Context `{Host}.

(** [_interpret_command] in terms of the parsed command. *)
Lemma interpret_command_parsed text b loc :
  _interpret_command text b loc =
  match parse_command text with
  | Some (excl, name, eq, rest) =>
      if negb excl || (excl && b) then execute_command excl name eq rest text loc
      else ret RNone
  | None =>
      state_log_error "unknown-command"
        ("couldn't interpret command '" ++ text ++ "'") loc ;;
      ret RNone
  end.
Proof.
  unfold _interpret_command. rewrite command_regex_parse.
  destruct (parse_command text) as [[[[excl name] eq] rest]|]; [|reflexivity].
  assert (Hrhs : (if negb (is_empty rest) then strip rest else EmptyString) = strip rest)
    by now destruct rest.
  unfold execute_command, group_text.
  destruct excl, eq;
    cbn [option_map caps_command group app Nat.eqb truthy is_empty negb];
    rewrite ?Hrhs, ?length_zero_is_empty; reflexivity.
Qed.

(** Loops over a concatenation. *)
Lemma for_each_app {St A : Type} (l1 l2 : list A) (body : A -> M St unit) s :
  for_each (l1 ++ l2)%list body s = (for_each l1 body ;; for_each l2 body) s.
Proof.
  revert s. induction l1 as [|x l1 IH]; intros s; simpl.
  - reflexivity.
  - unfold bind in *. destruct (body x s) as [[] s'|e s']; [|reflexivity].
    now rewrite IH.
Qed.

Lemma run_action_no_core_state has_exclamation action_name raw_args loc st :
  private_core_state st = None ->
  run_action has_exclamation action_name raw_args loc st = Exn TypeError st.
Proof. intros Hc. unfold run_action, bind, get_private_core_state. now rewrite Hc. Qed.

Lemma run_action_none has_exclamation action_name raw_args loc st core_state :
  private_core_state st = Some core_state ->
  lookup_action (actions core_state) action_name = [] ->
  run_action has_exclamation action_name raw_args loc st
  = Ok RNone
      (set_log
         (log_error "action-not-found"
            ("couldn't run action '" ++ action_name ++ "'. action not found.")
            loc (log st)) st).
Proof.
  intros Hc Hm. unfold run_action, bind, get_private_core_state.
  rewrite Hc, Hm. reflexivity.
Qed.

Lemma run_action_one has_exclamation action_name raw_args loc st core_state action :
  private_core_state st = Some core_state ->
  lookup_action (actions core_state) action_name = [action] ->
  run_action has_exclamation action_name raw_args loc st
  = if exclamation_only action && negb has_exclamation then
      Ok RNone
        (set_log
           (log_error "excl-only-action-without-excl"
              ("didn't run action '" ++ action_name
               ++ "'. action is !-only but written without a '!'")
              loc (log st)) st)
    else
      action_function (function action) action_name raw_args
        (mkActionContext st (root_config st) (plugin_config action) loc (log st)).
Proof.
  intros Hc Hm. unfold run_action, bind, get_private_core_state.
  rewrite Hc, Hm. cbn [List.length].
  destruct (exclamation_only action && negb has_exclamation); reflexivity.
Qed.

Lemma run_action_many has_exclamation action_name raw_args loc st core_state :
  private_core_state st = Some core_state ->
  2 <= List.length (lookup_action (actions core_state) action_name) ->
  exists alternatives,
    _join_alternatives
      (map qualified_name (lookup_action (actions core_state) action_name))
    = Some alternatives
    /\ run_action has_exclamation action_name raw_args loc st
       = Ok RNone
           (set_log
              (log_error "ambiguous-action-name"
                 ("didn't run action '" ++ action_name
                  ++ "'. action name is ambiguous, did you mean: " ++ alternatives)
                 loc (log st)) st).
Proof.
  intros Hc Hlen. unfold run_action, bind, get_private_core_state. rewrite Hc.
  destruct (lookup_action _ _) as [|a [|a' l]] eqn:Hm; cbn [List.length] in *; try lia.
  unfold _join_alternatives.
  destruct (last (map qualified_name (a :: a' :: l))) as [final|] eqn:Hlast.
  - eexists. split; reflexivity.
  - apply last_None in Hlast. discriminate.
Qed.

End InterpreterFacts.

Lemma append_String x (a b : string) : String x a ++ b = String x (a ++ b).
Proof. reflexivity. Qed.

Lemma append_assoc (a b c : string) : (a ++ b) ++ c = a ++ b ++ c.
Proof.
  induction a as [|x a IH]; [reflexivity|]. now rewrite !append_String, IH.
Qed.

Lemma append_empty_r (a : string) : a ++ EmptyString = a.
Proof.
  induction a as [|x a IH]; [reflexivity|]. now rewrite append_String, IH.
Qed.

Lemma occurs_in_refl a : occurs_in a a.
Proof.
  exists EmptyString, EmptyString. change (EmptyString ++ a ++ EmptyString) with (a ++ EmptyString).
  now rewrite append_empty_r.
Qed.

Lemma occurs_in_left a b c : occurs_in a b -> occurs_in a (b ++ c).
Proof.
  intros (x & y & ->). exists x, (y ++ c). now rewrite !append_assoc.
Qed.

Lemma occurs_in_right a b c : occurs_in a c -> occurs_in a (b ++ c).
Proof.
  intros (x & y & ->). exists (b ++ x), y. now rewrite !append_assoc.
Qed.

Lemma occurs_in_join sep l x : In x l -> occurs_in x (join sep l).
Proof.
  induction l as [|y l IH]; [intros []|].
  intros [->|Hin].
  - destruct l; [apply occurs_in_refl | apply occurs_in_left, occurs_in_refl].
  - destruct l as [|z l]; [destruct Hin|].
    change (join sep (y :: z :: l)) with (y ++ sep ++ join sep (z :: l)).
    now apply occurs_in_right, occurs_in_right, IH.
Qed.

(** Every alternative is named in the text that [_join_alternatives] builds. *)
Lemma join_alternatives_names l s x :
  _join_alternatives l = Some s -> In x l -> occurs_in x s.
Proof.
  unfold _join_alternatives. destruct (last l) as [final|] eqn:Hlast; [|discriminate].
  intros [= <-] Hin. apply last_Some in Hlast as [l' ->].
  rewrite removelast_last. apply in_app_or in Hin as [Hin|[->|[]]].
  - now apply occurs_in_left, occurs_in_join.
  - apply occurs_in_right, occurs_in_right, occurs_in_refl.
Qed.

(** ** The matcher on [config_root_regex] *)

Section Matched.
Variable K : cont.
Variable P : string -> bool.
Hypothesis K_matches : forall q t cs, matched (K q t cs) = P t.

Lemma matched_none q t cs : P t = false -> K q t cs = None.
Proof. intros HP. specialize (K_matches q t cs). rewrite HP in K_matches.
       now destruct (K q t cs). Qed.

Lemma matched_lit l pos s caps :
  matched (rmatch (lit l) pos s caps K)
  = match strip_prefix l s with
    | Some t => P t
    | None => false
    end.
Proof.
  revert pos s. induction l as [|a l IH]; intros pos s.
  - apply K_matches.
  - change (lit (String a l)) with (Seq (Chr a) (lit l)).
    rewrite rmatch_Seq, rmatch_Chr. cbn [strip_prefix].
    destruct s as [|b s]; [reflexivity|].
    destruct (Ascii.eqb a b); [apply IH | reflexivity].
Qed.

Lemma matched_spaces pos s caps :
  (forall c t, is_space c = true -> P (String c t) = false) ->
  matched (star_class is_space pos s caps K) = P (drop_while is_space s).
Proof.
  intros Hsp. rewrite star_class_greedy; [apply K_matches|].
  intros c t q cs Hc. apply matched_none. now apply Hsp.
Qed.
End Matched.

Module ConfigRootRegexFacts.
Import ConfigRootRegex.

Lemma config_root_regex_shape : config_root_regex = Seq Bol (Seq (Star is_space) r_prapti).
Proof. reflexivity. Qed.

Lemma end_ok pos s caps : matched (rmatch r_end pos s caps accept) = true.
Proof.
  unfold r_end. rewrite rmatch_Seq, rmatch_Star.
  rewrite star_class_total by (intros; discriminate). reflexivity.
Qed.

Lemma true_ok pos s caps : matched (rmatch r_true pos s caps accept) = has_true s.
Proof.
  unfold r_true. rewrite rmatch_Seq, rmatch_Group.
  rewrite (matched_lit _ (fun _ => true)); [reflexivity|].
  intros. apply end_ok.
Qed.

Lemma space_not_letter c t l :
  is_space c = true -> all_chars is_name_char l = true -> l <> EmptyString ->
  strip_prefix l (String c t) = None.
Proof.
  intros Hc Hl Hne. destruct l as [|a l]; [congruence|].
  cbn [all_chars] in Hl. apply andb_prop in Hl as [Ha _].
  cbn [strip_prefix]. destruct (Ascii.eqb a c) eqn:E; [|reflexivity].
  apply Ascii.eqb_eq in E as ->. apply space_facts in Hc as (Hc & _). congruence.
Qed.

Lemma equals_ok pos s caps : matched (rmatch r_equals pos s caps accept) = has_equals s.
Proof.
  unfold r_equals. rewrite rmatch_Seq, rmatch_Group, rmatch_Chr.
  destruct s as [|c s4]; [reflexivity|]. cbn [has_equals].
  destruct (Ascii.eqb "=" c); [|reflexivity]. cbn [andb].
  rewrite rmatch_Seq, rmatch_Star.
  rewrite (matched_spaces _ has_true).
  - reflexivity.
  - intros. apply true_ok.
  - intros c' t Hc'. unfold has_true. now rewrite space_not_letter.
Qed.

Lemma config_root_ok pos s caps :
  matched (rmatch r_config_root pos s caps accept) = has_config_root s.
Proof.
  unfold r_config_root. rewrite rmatch_Seq, rmatch_Group.
  rewrite (matched_lit _ (fun t => has_equals (drop_while is_space t))); [reflexivity|].
  intros q t cs. rewrite rmatch_Seq, rmatch_Star.
  rewrite (matched_spaces _ has_equals).
  - reflexivity.
  - intros. apply equals_ok.
  - intros c' t' Hc'. cbn [has_equals].
    apply space_facts in Hc' as (_ & -> & _). reflexivity.
Qed.

Lemma prapti_ok pos s caps :
  matched (rmatch r_prapti pos s caps accept)
  = has_config_root (match strip_prefix "prapti." s with Some t => t | None => s end).
Proof.
  unfold r_prapti. rewrite rmatch_Seq, rmatch_Opt, rmatch_Group.
  pose proof (matched_lit
                (fun pos' s' caps' =>
                   rmatch r_config_root pos' s'
                     ((1, substring 0 (pos' - pos) s) :: caps') accept)
                has_config_root
                (fun q t cs => config_root_ok q t _) "prapti." pos s caps) as Hl.
  destruct (rmatch (lit "prapti.") pos s caps _) as [m|] eqn:E.
  - cbn [matched] in *. destruct (strip_prefix "prapti." s); [exact Hl | discriminate].
  - cbn [matched] in Hl. rewrite config_root_ok.
    destruct (strip_prefix "prapti." s) as [t|] eqn:Ep; [|reflexivity].
    rewrite <- Hl. unfold has_config_root.
    destruct s as [|c s]; [discriminate|]. cbn [strip_prefix] in Ep |- *.
    destruct (Ascii.eqb "p" c) eqn:Ec; [|discriminate].
    apply Ascii.eqb_eq in Ec as <-. reflexivity.
Qed.

End ConfigRootRegexFacts.

(** [config_root_regex] matches exactly the texts of [config_root_text]. *)
Lemma config_root_regex_text s :
  matched (re_match config_root_regex s) = config_root_text s.
Proof.
  unfold re_match. rewrite ConfigRootRegexFacts.config_root_regex_shape.
  change (fun (_ : nat) (_ : string) caps => Some caps) with accept.
  rewrite rmatch_Seq, rmatch_Bol, rmatch_Seq, rmatch_Star.
  rewrite (matched_spaces _
             (fun t => ConfigRootRegex.has_config_root
                         (match strip_prefix "prapti." t with Some u => u | None => t end))).
  - reflexivity.
  - intros. apply ConfigRootRegexFacts.prapti_ok.
  - intros c t Hc.
    rewrite ConfigRootRegexFacts.space_not_letter by (assumption || reflexivity || discriminate).
    unfold ConfigRootRegex.has_config_root.
    now rewrite ConfigRootRegexFacts.space_not_letter by (assumption || reflexivity || discriminate).
Qed.

(** *** Texts of the form [name = value] *)

Lemma take_while_app p a b :
  all_chars p a = true -> take_while p (a ++ b) = a ++ take_while p b.
Proof.
  induction a as [|x a IH]; [reflexivity|].
  cbn [all_chars]. intros [Hx Ha]%andb_prop.
  rewrite !append_String. cbn [take_while]. now rewrite Hx, IH.
Qed.

Lemma drop_while_app p a b :
  all_chars p a = true -> drop_while p (a ++ b) = drop_while p b.
Proof.
  induction a as [|x a IH]; [reflexivity|].
  cbn [all_chars]. intros [Hx Ha]%andb_prop.
  rewrite !append_String. cbn [drop_while]. now rewrite Hx, IH.
Qed.

Lemma take_while_stuck p b : drop_while p b = b -> take_while p b = EmptyString.
Proof.
  destruct b as [|x b]; [reflexivity|]. cbn [drop_while take_while].
  destruct (p x); [|reflexivity].
  intros Hd. exfalso.
  assert (Hlen : forall s, String.length (drop_while p s) <= String.length s).
  { induction s as [|y s IH]; simpl; [lia|]. destruct (p y); simpl; lia. }
  specialize (Hlen b). rewrite Hd in Hlen. simpl in Hlen. lia.
Qed.

Lemma strip_all_space p s : all_chars is_space s = true -> strip (take_while p s) = EmptyString.
Proof.
  unfold strip. induction s as [|x s IH]; [reflexivity|].
  cbn [all_chars take_while]. intros [Hx Hs]%andb_prop.
  destruct (p x); [|reflexivity]. cbn [drop_while]. rewrite Hx. now apply IH.
Qed.

(** A name, white space, an equals sign and a value parse as an assignment
    without exclamation mark. *)
Lemma parse_command_assignment (name ws value : string) :
  name <> EmptyString ->
  all_chars is_name_char name = true ->
  all_chars is_space ws = true ->
  parse_command (name ++ ws ++ "=" ++ value)
  = Some (false, name, true, take_while is_not_newline value).
Proof.
  intros Hne Hname Hws.
  destruct name as [|c name]; [congruence|]. clear Hne.
  pose proof Hname as Hname'. cbn [all_chars] in Hname.
  apply andb_prop in Hname as [Hc _].
  destruct (name_char_facts c Hc) as (Hsp & _ & Hex).
  unfold parse_command, split_excl. rewrite append_String, Hex.
  cbn [drop_while]. rewrite Hsp. rewrite <- append_String.
  assert (Hstuck : drop_while is_name_char (ws ++ "=" ++ value) = ws ++ "=" ++ value).
  { destruct ws as [|x ws']; [reflexivity|].
    cbn [all_chars] in Hws. apply andb_prop in Hws as [Hx _].
    rewrite append_String. cbn [drop_while].
    destruct (space_facts x Hx) as (-> & _). reflexivity. }
  rewrite take_while_app, drop_while_app by assumption.
  rewrite (take_while_stuck _ _ Hstuck), Hstuck, append_empty_r.
  unfold parse_tail. rewrite drop_while_app by assumption.
  change (drop_while is_space ("=" ++ value)) with (String "=" value).
  reflexivity.
Qed.

(** *** Where a command and a pass raise, and what a pass that returns
    has written *)

Section Raising.
Context `{Host}.

Lemma run_action_raises has_exclamation action_name raw_args loc st e st' :
  run_action has_exclamation action_name raw_args loc st = Exn e st'
  <-> action_raises has_exclamation action_name raw_args loc st e st'.
Proof.
  unfold action_raises, call_action.
  destruct (private_core_state st) as [core|] eqn:Hc.
  - destruct (lookup_action (actions core) action_name) as [|a [|a' l]] eqn:Hm.
    + rewrite (run_action_none _ _ _ _ _ _ Hc Hm). split; [discriminate|].
      intros [(Hn & _) | (core' & a & Hc' & Hm' & _)]; congruence.
    + rewrite (run_action_one _ _ _ _ _ _ _ Hc Hm). split.
      * destruct (exclamation_only a) eqn:Hex, has_exclamation; cbn [andb negb];
          try discriminate; intros Hcall; right; exists core, a; auto.
      * intros [(Hn & _) | (core' & a0 & Hc' & Hm' & Hpol & Hcall)]; [discriminate|].
        assert (core' = core) as -> by congruence.
        assert (a0 = a) as -> by congruence.
        replace (exclamation_only a && negb has_exclamation) with false; [exact Hcall|].
        destruct Hpol as [-> | ->]; [reflexivity | now rewrite andb_false_r].
    + destruct (run_action_many has_exclamation action_name raw_args loc st core Hc)
        as (alternatives & _ & ->); [rewrite Hm; simpl; lia|].
      split; [discriminate|].
      intros [(Hn & _) | (core' & a0 & Hc' & Hm' & _)]; congruence.
  - rewrite (run_action_no_core_state _ _ _ _ _ Hc). split.
    + intros [= <- <-]. now left.
    + intros [(_ & -> & ->) | (core' & a0 & Hc' & _)]; [reflexivity | discriminate].
Qed.

Lemma state_assign_field_raises name rhs loc st e st' :
  state_assign_field name rhs loc st = Exn e st'
  <-> assignment_raises name rhs loc st e st'.
Proof.
  unfold state_assign_field, assignment_raises.
  destruct (assign_field (root_config st) name rhs loc (log st)) as [[] [rc lg]|e' [rc lg]].
  - split; [discriminate|]. intros (rc' & lg' & Ha & _). discriminate.
  - split.
    + intros [= -> <-]. now exists rc, lg.
    + intros (rc' & lg' & [= -> -> ->] & ->). reflexivity.
Qed.

(** A command raises exactly when it is an assignment with a right-hand side
    and [assign_field] raises, or an action command and [run_action] raises;
    in both cases a command that is not waiting for the final message. *)
Lemma interpret_command_raises command_text b loc st e st' :
  _interpret_command command_text b loc st = Exn e st'
  <-> exists excl name eq rest,
        parse_command command_text = Some (excl, name, eq, rest)
        /\ (excl = false \/ b = true)
        /\ if eq : bool
           then is_empty (strip rest) = false
                /\ assignment_raises name (strip rest) loc st e st'
           else action_raises excl name (strip rest) loc st e st'.
Proof.
  rewrite interpret_command_parsed.
  destruct (parse_command command_text) as [[[[excl name] eq] rest]|].
  - assert (Hgate : negb excl || excl && b = true <-> (excl = false \/ b = true))
      by (destruct excl, b; cbn; intuition congruence).
    assert (Hbody : negb excl || excl && b = true ->
              (execute_command excl name eq rest command_text loc st = Exn e st'
               <-> if eq : bool
                   then is_empty (strip rest) = false
                        /\ assignment_raises name (strip rest) loc st e st'
                   else action_raises excl name (strip rest) loc st e st')).
    { intros _. unfold execute_command. destruct eq.
      - destruct (is_empty (strip rest)).
        + split; [discriminate | intros [? _]; discriminate].
        + rewrite <- state_assign_field_raises. unfold bind, ret.
          destruct (state_assign_field name (strip rest) loc st) as [[] s1|e1 s1].
          * split; [discriminate | intros [_ ?]; discriminate].
          * split; [intros [= -> ->]; auto | intros [_ [= -> ->]]; reflexivity].
      - apply run_action_raises. }
    destruct (negb excl || excl && b) eqn:Hg.
    + split.
      * intros Hr. exists excl, name, eq, rest. split; [reflexivity|].
        split; [now apply Hgate | now apply Hbody].
      * intros (excl' & name' & eq' & rest' & [= <- <- <- <-] & _ & Hr). now apply Hbody.
    + split; [discriminate|].
      intros (excl' & name' & eq' & rest' & [= <- <- <- <-] & Hopen & _).
      apply Hgate in Hopen. discriminate.
  - split; [discriminate|]. intros (? & ? & ? & ? & Hp & _). discriminate.
Qed.

(** A loop that raises has run a prefix of the list normally and raised at
    the next element. *)
Lemma for_each_raises_at {St A : Type} (body : A -> M St unit) (l : list A) s e s' :
  for_each l body s = Exn e s'
  <-> exists l1 x l2 s1,
        l = (l1 ++ x :: l2)%list /\ for_each l1 body s = Ok tt s1 /\ body x s1 = Exn e s'.
Proof.
  split.
  - revert s. induction l as [|x l IH]; intros s; cbn [for_each]; [discriminate|].
    unfold bind. destruct (body x s) as [[] s1|e1 s1] eqn:Hx.
    + intros Hl. destruct (IH _ Hl) as (l1 & y & l2 & s2 & -> & Hpre & Hy).
      exists (x :: l1), y, l2, s2. repeat split; [|exact Hy].
      cbn [for_each]. unfold bind. now rewrite Hx.
    + intros [= -> ->]. exists [], x, l, s. now repeat split.
  - intros (l1 & x & l2 & s1 & -> & Hpre & Hx).
    rewrite for_each_app. unfold bind. rewrite Hpre. cbn [for_each]. unfold bind.
    now rewrite Hx.
Qed.

Lemma interpret_item_raises flag item w e w' :
  interpret_item flag item w = Exn e w'
  <-> exists c st',
        item = CommandItem c /\ cmd_is_enabled (obj c) = true
        /\ _interpret_command (text (obj c)) flag (source_loc (obj c)) (state w) = Exn e st'
        /\ w' = mkWorld st' (results w).
Proof.
  destruct item as [t|c]; cbn [interpret_item].
  - split; [discriminate | intros (? & ? & ? & _); discriminate].
  - destruct (cmd_is_enabled (obj c)) eqn:Hen.
    + unfold bind, lift_state, set_result.
      destruct (_interpret_command _ _ _ _) as [r st1|e1 st1] eqn:Hr.
      * split; [discriminate|].
        intros (c' & st' & [= <-] & _ & Hr' & _). congruence.
      * split.
        -- intros [= -> <-]. exists c, st1. now repeat split.
        -- intros (c' & st' & [= <-] & _ & Hr' & ->). rewrite Hr in Hr'.
           now inversion Hr'.
    + split; [discriminate|]. intros (c' & st' & [= <-] & ? & _). congruence.
Qed.

Lemma final_message_of_returns ms fin w :
  fin = false \/ ms <> [] ->
  final_message_of ms fin w = Ok (if fin then last ms else None) w.
Proof.
  intros Hne. unfold final_message_of. destruct fin; [|reflexivity].
  destruct (last ms) eqn:Hlast; [reflexivity|].
  apply last_None in Hlast. destruct Hne; congruence.
Qed.

Lemma is_final_flag (m : Ref Message) (ms : list (Ref Message)) (fin : bool) :
  is_ m (if fin then last ms else None) = fin && is_ m (last ms).
Proof. now destruct fin. Qed.

(** A pass raises exactly when it is called as final on an empty sequence
    (IndexError, nothing changed), or when it comes to a command that
    raises. *)
Lemma pass_raises_at ms fin w e w' :
  interpret_commands ms fin w = Exn e w'
  <-> (e = IndexError /\ ms = [] /\ fin = true /\ w' = w)
      \/ (exists m c flag w1 st',
            reaches ms fin w m c flag w1
            /\ _interpret_command (text (obj c)) flag (source_loc (obj c)) (state w1)
               = Exn e st'
            /\ w' = mkWorld st' (results w1)).
Proof.
  assert (Hloop : fin = false \/ ms <> [] ->
            (interpret_commands ms fin w = Exn e w'
             <-> exists m c flag w1 st',
                   reaches ms fin w m c flag w1
                   /\ _interpret_command (text (obj c)) flag (source_loc (obj c)) (state w1)
                      = Exn e st'
                   /\ w' = mkWorld st' (results w1))).
  { intros Hne. unfold interpret_commands. unfold bind at 1.
    rewrite (final_message_of_returns _ _ _ Hne).
    set (fm := if fin then last ms else None).
    rewrite for_each_raises_at. split.
    - intros (pre & m & post & w0 & Hms & Hpre & Hm).
      unfold interpret_message in Hm. destruct (is_enabled (obj m)) eqn:Hen; [|discriminate].
      apply for_each_raises_at in Hm as (ipre & item & ipost & w1 & Hcontent & Hipre & Hitem).
      apply interpret_item_raises in Hitem as (c & st' & -> & Hc & Hr & ->).
      exists m, c, (is_ m fm), w1, st'. repeat split; [|exact Hr].
      exists pre, post, ipre, ipost. repeat split; try assumption.
      + apply is_final_flag.
      + fold fm. unfold bind. now rewrite Hpre.
    - intros (m & c & flag & w1 & st' & Hreach & Hr & ->).
      destruct Hreach as (pre & post & ipre & ipost & Hms & Hen & Hcontent & Hc & Hflag & Hrun).
      fold fm in Hrun. unfold bind in Hrun.
      destruct (for_each pre (interpret_message fm) w) as [[] w0|e0 w0] eqn:Hpre;
        [|discriminate].
      exists pre, m, post, w0. split; [exact Hms | split; [exact Hpre|]].
      unfold interpret_message. rewrite Hen.
      assert (Hfm : is_ m fm = flag) by (subst flag; apply is_final_flag).
      rewrite Hfm. apply for_each_raises_at.
      exists ipre, (CommandItem c), ipost, w1. repeat split; try assumption.
      apply interpret_item_raises. exists c, st'. now repeat split. }
  destruct fin.
  - destruct ms as [|m0 ms0].
    + split.
      * intros [= <- <-]. now left.
      * intros [(-> & _ & _ & ->) | (m & c & flag & w1 & st' & Hreach & _)]; [reflexivity|].
        destruct Hreach as (pre & post & ? & ? & Hms & _). now destruct pre.
    + rewrite Hloop by (right; discriminate). split; [now right|].
      intros [(_ & Hnil & _) | Hr]; [discriminate | exact Hr].
  - rewrite Hloop by now left. split; [now right|].
    intros [(_ & _ & Hfin & _) | Hr]; [discriminate | exact Hr].
Qed.




End Raising.

(** ** The claims *)

Section Claims.
Context `{Host}.

(** C10. An empty sequence with [is_final_sequence] true raises IndexError,
    from [message_sequence[-1]], with the state as it was (no message was
    visited); with [is_final_sequence] false the call returns normally and
    changes nothing. *)
Theorem interpret_commands_empty_sequence (w : World) :
  interpret_commands [] true w = Exn IndexError w
  /\ interpret_commands [] false w = Ok tt w.
Proof. split; reflexivity. Qed.

(** C4. On a state that holds its core state: when [lookup_action] finds
    no action, an action-not-found
    diagnostic is reported and the result is [None].  When it finds two or
    more, one ambiguous-action-name diagnostic is reported whose text names
        every match, and the result is [None].  In both cases the state changes
    by that one diagnostic only, and the outcome is the same whatever the
    functions of the registered actions are (also if all of them raise): no
    action was run, none was picked. *)
Theorem lookup_failure_reported (has_exclamation : bool)
    (action_name raw_args : string) (loc : SourceLocation) (st : ExecutionState)
    (core_state : CoreState) :
  private_core_state st = Some core_state ->
  let matches := lookup_action (actions core_state) action_name in
  (matches = [] ->
     run_action has_exclamation action_name raw_args loc st
     = Ok RNone
         (set_log
            (log_error "action-not-found"
               ("couldn't run action '" ++ action_name ++ "'. action not found.")
               loc (log st)) st))
  /\ (2 <= List.length matches ->
      exists alternatives,
        _join_alternatives (map qualified_name matches) = Some alternatives
        /\ (forall a, In a matches -> occurs_in (qualified_name a) alternatives)
        /\ run_action has_exclamation action_name raw_args loc st
           = Ok RNone
               (set_log
                  (log_error "ambiguous-action-name"
                     ("didn't run action '" ++ action_name
                      ++ "'. action name is ambiguous, did you mean: " ++ alternatives)
                                          loc (log st)) st))
  /\ (List.length matches <> 1 ->
      forall functions' :
        FunctionId -> string -> string -> ActionContext -> Res ExecutionState Result,
        run_action (H := mkHost lookup_action assign_field functions')
          has_exclamation action_name raw_args loc st
        = run_action has_exclamation action_name raw_args loc st).
Proof.
  intros Hcore matches. split; [|split].
  - now apply run_action_none.
  - intros Hlen.
    destruct (run_action_many has_exclamation action_name raw_args loc st core_state
                Hcore Hlen)
      as (alternatives & Hjoin & Hrun).
        exists alternatives. repeat split; try assumption.
    intros a Ha. eapply join_alternatives_names; [exact Hjoin|].
    now apply in_map.
  - intros Hlen functions'. subst matches.
    unfold run_action, bind, get_private_core_state. rewrite Hcore. cbn [lookup_action].
    destruct (lookup_action _ _) as [|a [|a' l]]; [reflexivity | | reflexivity].
    now destruct Hlen.
Qed.

(** C5. On a state that holds its core state, a command written without
    an exclamation mark that names an
        exclamation-only action is refused: an error diagnostic is reported, the
    result is [None], and the action's function is not run: the outcome is
    the same whatever the functions of the registered actions are. *)
Theorem exclamation_only_refused (command_text name rest : string) (b : bool)
    (loc : SourceLocation) (st : ExecutionState) (core_state : CoreState)
    (action : Action) :
  parse_command command_text = Some (false, name, false, rest) ->
  private_core_state st = Some core_state ->
  lookup_action (actions core_state) name = [action] ->
  exclamation_only action = true ->
  let refused :=
    Ok RNone
      (set_log
         (log_error "excl-only-action-without-excl"
            ("didn't run action '" ++ name
             ++ "'. action is !-only but written without a '!'")
            loc (log st)) st) in
    run_action false name (strip rest) loc st = refused
  /\ _interpret_command command_text b loc st = refused
  /\ (forall functions' :
        FunctionId -> string -> string -> ActionContext -> Res ExecutionState Result,
        _interpret_command (H := mkHost lookup_action assign_field functions')
          command_text b loc st
        = refused).
Proof.
  intros Hp Hcore Hm Hex refused.
  assert (Hrun : forall (H' : Host),
             @lookup_action H' (actions core_state) name = [action] ->
             run_action (H := H') false name (strip rest) loc st = refused
             /\ _interpret_command (H := H') command_text b loc st = refused).
  { intros H' Hm'.
    assert (Hr : run_action (H := H') false name (strip rest) loc st = refused)
      by (rewrite (run_action_one _ _ _ _ _ _ _ Hcore Hm'), Hex; reflexivity).
    split; [exact Hr|]. rewrite interpret_command_parsed, Hp. exact Hr. }
  split; [|split].
  - now apply Hrun.
  - now apply Hrun.
  - intros functions'. now apply Hrun.
Qed.

(** C8. On a state that holds its core state, with exactly one match
    that the exclamation policy lets run, the
    interpreter builds the ActionContext and calls the action's function
    with [(name, raw_args, context)]; what the function returns is stored
    as it is in the command's [result]. *)
Theorem unique_match_dispatched (c : Ref Command) (flag excl : bool)
    (name rest : string) (w : World) (core_state : CoreState) (action : Action) :
  cmd_is_enabled (obj c) = true ->
  parse_command (text (obj c)) = Some (excl, name, false, rest) ->
  (excl = false \/ flag = true) ->
  private_core_state (state w) = Some core_state ->
  lookup_action (actions core_state) name = [action] ->
  (exclamation_only action = false \/ excl = true) ->
  let context :=
    mkActionContext (state w) (root_config (state w)) (plugin_config action)
      (source_loc (obj c)) (log (state w)) in
  let call := action_function (function action) name (strip rest) context in
  run_action excl name (strip rest) (source_loc (obj c)) (state w) = call
  /\ interpret_item flag (CommandItem c) w
     = match call with
       | Ok r st' => Ok tt (mkWorld st' (<[addr c := r]> (results w)))
       | Exn e st' => Exn e (mkWorld st' (results w))
       end.
Proof.
  intros Hen Hp Hgate Hcore Hm Hpol context call.
  assert (Hrun : run_action excl name (strip rest) (source_loc (obj c)) (state w) = call).
  { rewrite (run_action_one _ _ _ _ _ _ _ Hcore Hm).
    replace (exclamation_only action && negb excl) with false; [reflexivity|].
    destruct Hpol as [-> | ->]; [reflexivity | now rewrite andb_false_r]. }
  split; [exact Hrun|].
  unfold interpret_item. rewrite Hen. unfold bind, lift_state.
  rewrite interpret_command_parsed, Hp.
  replace (negb excl || excl && flag) with true
    by (destruct Hgate as [-> | ->]; [reflexivity | now destruct excl]).
  unfold execute_command. rewrite Hrun.
  destruct call as [r st'|e st']; reflexivity.
Qed.

(** C6.  The text [= 5] does not match the command pattern and is
    reported as unknown-command.  The text [field =], also when white space
    follows the equals sign, matches the pattern; it is reported with the
    code of its own, skiping-empty-assignment (spelt as in the source), the
    call returns normally with result [None], and the root configuration is
    what it was: [assign_field] is not reached. *)
Theorem malformed_assignments (b : bool) (loc : SourceLocation) (st : ExecutionState) :
  (re_match command_regex "= 5" = None
   /\ _interpret_command "= 5" b loc st
      = Ok RNone
          (set_log
             (log_error "unknown-command" "couldn't interpret command '= 5'"
                loc (log st)) st))
  /\ _interpret_command "field =" b loc st
     = Ok RNone
         (set_log
            (log_error "skiping-empty-assignment"
               "skipping configuration assignment with no right-hand-side 'field ='"
               loc (log st)) st)
  /\ (forall ws : string,
        all_chars is_space ws = true ->
        let command_text := "field =" ++ ws in
        let st' :=
          set_log
            (log_error "skiping-empty-assignment"
               ("skipping configuration assignment with no right-hand-side '"
                ++ command_text ++ "'")
               loc (log st)) st in
        is_Some (re_match command_regex command_text)
        /\ _interpret_command command_text b loc st = Ok RNone st'
        /\ root_config st' = root_config st).
Proof.
  assert (Hws : forall ws : string,
             all_chars is_space ws = true ->
             parse_command ("field =" ++ ws)
             = Some (false, "field", true, take_while is_not_newline ws)).
  { intros ws Hws.
    change ("field =" ++ ws) with ("field" ++ " " ++ "=" ++ ws).
    now apply parse_command_assignment. }
  assert (Hrun : forall ws : string,
             all_chars is_space ws = true ->
             _interpret_command ("field =" ++ ws) b loc st
             = Ok RNone
                 (set_log
                    (log_error "skiping-empty-assignment"
                       ("skipping configuration assignment with no right-hand-side '"
                        ++ ("field =" ++ ws) ++ "'")
                       loc (log st)) st)).
  { intros ws Hs. rewrite interpret_command_parsed, (Hws ws Hs).
    cbn [negb orb]. unfold execute_command.
    rewrite (strip_all_space _ _ Hs). reflexivity. }
  split; [split|split].
  - reflexivity.
  - rewrite interpret_command_parsed. reflexivity.
  - exact (Hrun EmptyString eq_refl).
  - intros ws Hs command_text st'. repeat split.
    + subst command_text. rewrite command_regex_parse, (Hws ws Hs). now eexists.
    + now apply Hrun.
Qed.

(** C1, as the code has it.  Take an enabled command of an enabled message
    whose text matches the command pattern.  The pass over the sequence is:
    everything before the command, one step for the command, everything
    after it.  If the text begins with an exclamation mark and it is not the
    case that both [is_final_sequence] is true and the message is the last
    object of the sequence, the step only sets the command's result to
    [None]: no assignment, no dispatch, no diagnostic.  In every other case
    (an exclamation mark in the last message of a final pass, or no
    exclamation mark at all) the step executes the command, assigning or
    dispatching, and stores what that returns.  A text that does not match
    the pattern is outside this statement: it is reported as
    unknown-command on every pass. *)
Theorem exclamation_gate (pre post : list (Ref Message)) (m : Ref Message)
    (ipre ipost : list ContentItem) (c : Ref Command) (fin excl eq : bool)
    (name rest : string) (w : World) :
  is_enabled (obj m) = true ->
  content (obj m) = (ipre ++ CommandItem c :: ipost)%list ->
  cmd_is_enabled (obj c) = true ->
  parse_command (text (obj c)) = Some (excl, name, eq, rest) ->
  let ms := (pre ++ m :: post)%list in
  let final_message := if fin then last ms else None in
  let in_final_message := fin && is_ m (last ms) in
  let step :=
    if excl && negb in_final_message then set_result c RNone
    else
      r <- lift_state
             (execute_command excl name eq rest (text (obj c)) (source_loc (obj c))) ;;
      set_result c r in
  (excl = true <-> exists t, text (obj c) = String "!" t)
  /\ interpret_commands ms fin w
     = (for_each pre (interpret_message final_message) ;;
        for_each ipre (interpret_item in_final_message) ;;
        step ;;
        for_each ipost (interpret_item in_final_message) ;;
        for_each post (interpret_message final_message)) w.
Proof.
  intros Hm Hcontent Hc Hp ms final_message in_final_message step.
  split; [eapply parse_command_excl; eassumption|].
  assert (Hfinal : final_message_of ms fin w = Ok final_message w).
  { unfold final_message_of, final_message. destruct fin; [|reflexivity].
    destruct (last ms) eqn:Hlast; [reflexivity|].
    apply last_None in Hlast. subst ms. now destruct pre. }
  assert (Hflag : is_ m final_message = in_final_message).
  { unfold final_message, in_final_message. now destruct fin. }
  assert (Hstep : forall w', interpret_item in_final_message (CommandItem c) w' = step w').
  { intros w'. unfold interpret_item, step. rewrite Hc.
    unfold bind, lift_state. rewrite interpret_command_parsed, Hp.
    destruct excl, in_final_message; reflexivity. }
  unfold interpret_commands. unfold bind at 1. rewrite Hfinal.
  subst ms. rewrite for_each_app. unfold bind.
  destruct (for_each pre _ w) as [[] w1|e w1]; [|reflexivity].
  cbn [for_each]. unfold bind.
  unfold interpret_message at 1. rewrite Hm, Hflag, Hcontent, for_each_app.
  unfold bind.
  destruct (for_each ipre _ w1) as [[] w2|e w2]; [|reflexivity].
  cbn [for_each]. unfold bind. rewrite Hstep.
  destruct (step w2) as [[] w3|e w3]; [|reflexivity].
  destruct (for_each ipost _ w3) as [[] w4|e w4]; reflexivity.
Qed.

End Claims.

Section ReportingClaim.
Variable lookup : ActionNamespace -> string -> list Action.
Variable functions :
  FunctionId -> string -> string -> ActionContext -> Res ExecutionState Result.
Variable convert : FieldType -> string -> option Value.
Variable explain : string -> string -> string -> string.

Let host : Host := mkHost lookup (assign_field_spec convert explain) functions.




End ReportingClaim.

(** C9.  [is_config_root] returns [True] exactly when some enabled message
    holds an enabled command whose text matches [config_root_regex]; the
    texts that match are those of [config_root_text]: optional [prapti.],
    [config_root], an equals sign and [true], with optional white space
    around them, at the start of the text.  The scan is a function from the
    sequence to a boolean: it takes no state, writes no result, reports
    nothing, and calls neither [_interpret_command] nor [run_action]. *)
Theorem is_config_root_scan (config_message_sequence : list (Ref Message)) :
  (is_config_root config_message_sequence = true <->
   exists (m : Ref Message) (c : Ref Command),
     In m config_message_sequence
     /\ is_enabled (obj m) = true
     /\ In (CommandItem c) (content (obj m))
     /\ cmd_is_enabled (obj c) = true
     /\ is_Some (re_match config_root_regex (text (obj c))))
  /\ (forall s : string,
        is_Some (re_match config_root_regex s) <-> config_root_text s = true).
Proof.
  split.
  - unfold is_config_root. rewrite existsb_exists. split.
    + intros (m & Hin & Hm). apply andb_prop in Hm as [Hen Hex].
      apply existsb_exists in Hex as (item & Hitem & Hmatch).
      destruct item as [t|c]; [discriminate|]. cbn [matches_config_root] in Hmatch.
      apply andb_prop in Hmatch as [Hc Hre]. apply bool_decide_eq_true in Hre.
      exists m, c. auto.
    + intros (m & c & Hin & Hen & Hitem & Hc & Hre).
      exists m. split; [exact Hin|]. rewrite Hen. cbn [andb].
      apply existsb_exists. exists (CommandItem c). split; [exact Hitem|].
      cbn [matches_config_root]. rewrite Hc. cbn [andb].
      now apply bool_decide_eq_true.
  - intros s. rewrite <- config_root_regex_text.
    destruct (re_match config_root_regex s); cbn [matched]; split;
      intros Hs; try reflexivity; try discriminate; [now eexists | now destruct Hs].
Qed.

Lemma strip_leading_space s : strip (String " " s) = strip s.
Proof. reflexivity. Qed.

Section AssignmentClaim.
Variable convert : FieldType -> string -> option Value.
Variable explain : string -> string -> string -> string.
Variable lookup : ActionNamespace -> string -> list Action.
Variable functions :
  FunctionId -> string -> string -> ActionContext -> Res ExecutionState Result.

Let host : Host := mkHost lookup (assign_field_spec convert explain) functions.

(** C7.  With [assign_field] as the specification describes it: a text
    [name = value] without exclamation mark, whose name is a field of the
    root configuration and whose value converts to the declared type of
    that field, sets the field to the converted value (and marks it as
    assigned); interpreting the same text again leaves the state exactly as
    the first interpretation left it. *)
Theorem assignment_sets_field_idempotently (name value : string) (b b' : bool)
    (loc loc' : SourceLocation) (st : ExecutionState) (slot : FieldSlot) (v : Value) :
  name <> EmptyString ->
  all_chars is_name_char name = true ->
  let command_text := name ++ " = " ++ value in
  let rhs := strip (take_while is_not_newline value) in
  rhs <> EmptyString ->
  root_config st !! name = Some slot ->
  convert (slot_type slot) rhs = Some v ->
  let assigned := mkFieldSlot (slot_type slot) v true in
  let st1 := set_root_config (<[name := assigned]> (root_config st)) st in
  _interpret_command (H := host) command_text b loc st = Ok RNone st1
  /\ root_config st1 !! name = Some assigned
  /\ _interpret_command (H := host) command_text b' loc' st1 = Ok RNone st1.
Proof.
  intros Hne Hname command_text rhs Hrhs Hslot Hconv assigned st1.
  assert (Hparse : parse_command command_text
                   = Some (false, name, true, take_while is_not_newline (String " " value))).
  { subst command_text.
    change (name ++ " = " ++ value) with (name ++ " " ++ "=" ++ String " " value).
    now apply parse_command_assignment. }
  assert (Hstrip : strip (take_while is_not_newline (String " " value)) = rhs)
    by reflexivity.
  assert (Hrun : forall flag l s sl,
             root_config s !! name = Some sl -> slot_type sl = slot_type slot ->
             _interpret_command (H := host) command_text flag l s
             = Ok RNone (set_root_config (<[name := assigned]> (root_config s)) s)).
  { intros flag l s sl Hs Hty. rewrite interpret_command_parsed, Hparse.
    cbn [negb orb]. unfold execute_command. rewrite Hstrip.
    destruct (is_empty rhs) eqn:Hempty; [destruct rhs; [congruence | discriminate]|].
    unfold bind, state_assign_field. cbn [assign_field host].
    unfold assign_field_spec. rewrite Hs, Hty, Hconv. reflexivity. }
  assert (Hlookup : root_config st1 !! name = Some assigned).
  { subst st1. cbn [root_config set_root_config]. apply lookup_insert_eq. }
  repeat split.
  - exact (Hrun b loc st slot Hslot eq_refl).
  - exact Hlookup.
  - rewrite (Hrun b' loc' st1 assigned Hlookup eq_refl).
    subst st1. unfold set_root_config. cbn [root_config log input_file_path
      user_prapti_config_dir prapticonfig_dirs message_sequence responses
      private_core_state test_exfil].
    now rewrite insert_insert_eq.
Qed.
End AssignmentClaim.

Section ResolutionClaim.
Variable repr : Configuration -> string.
Variable convert : FieldType -> string -> option Value.
Variable explain : string -> string -> string -> string.

Lemma resolve_var_refs_field config (root : RootConfiguration) lg field local :
  fields config !! field = Some local ->
  fields (resolve_var_refs config root lg) !! field
  = Some (resolve_field root (var_refs config) field local).
Proof.
  intros Hlocal. unfold resolve_var_refs. cbn [fields].
  now rewrite map_lookup_imap, Hlocal.
Qed.

Lemma generate_responses_resolves input_ context st plugin_config responder_config :
  rc_plugin_config context = Some plugin_config ->
  rc_responder_config context = Some responder_config ->
  exists st' lg,
    generate_responses repr input_ context st
    = Ok [new_Message "assistant" None [TextItem "Test!"]] st'
    /\ root_config st' = root_config st
    /\ test_exfil st' !! "test_responder_resolved_responder_config"
       = Some (resolve_var_refs responder_config (root_config st) lg).
Proof.
  intros Hp Hr. unfold generate_responses. rewrite Hp, Hr.
  unfold bind, state_log_debug, state_resolve_var_refs, exfil, ret.
  cbn [root_config set_log set_test_exfil log test_exfil input_file_path].
  do 2 eexists. split; [reflexivity|]. split; [reflexivity|].
  cbn [test_exfil]. apply lookup_insert_eq.
Qed.

(** C2.  With [resolve_var_refs] and [assign_field] as the specification
    describes them: in a resolved configuration a field bound by a VarRef
    has the current value at the referenced root path if that path has
    been explicitly assigned, and its own local value otherwise.
    [TestResponder] binds [temperature] (and [model], [n]) that way, and
    [generate_responses] resolves against the root configuration of the
    moment on every call: an assignment made between two calls is seen by
    the second. *)
Theorem var_refs_resolved_on_every_read :
  (forall (config : Configuration) (root : RootConfiguration)
          (lg : DiagnosticsLogger) (field : string) (ref : VarRef) (local : Value),
      var_ref_of (var_refs config) field = Some ref ->
      fields config !! field = Some local ->
      fields (resolve_var_refs config root lg) !! field
      = Some (match root !! var_name ref with
              | Some slot => if slot_assigned slot then slot_value slot else local
              | None => local
              end))
  /\ (forall context : ResponderContext,
        let config := register_configuration (construct_configuration context) in
        var_ref_of (var_refs config) "temperature" = Some (mkVarRef "temperature")
        /\ fields config !! "temperature" = Some (VInt 1))
  /\ (forall (input_ : list (Ref Message)) (context : ResponderContext)
             (st : ExecutionState) (plugin_config responder_config : Configuration)
             (field : string) (ref : VarRef) (local : Value) (slot : FieldSlot)
             (rhs : string) (v : Value) (loc : SourceLocation),
        rc_plugin_config context = Some plugin_config ->
        rc_responder_config context = Some responder_config ->
        var_ref_of (var_refs responder_config) field = Some ref ->
        fields responder_config !! field = Some local ->
        root_config st !! var_name ref = Some slot ->
        slot_assigned slot = false ->
        convert (slot_type slot) rhs = Some v ->
        exists st1 rs1 rc2 lg2 st3 rs3,
          generate_responses repr input_ context st = Ok rs1 st1
          /\ resolved_responder_field st1 field = Some local
          /\ assign_field_spec convert explain (root_config st1) (var_name ref) rhs
               loc (log st1)
             = Ok tt (rc2, lg2)
          /\ generate_responses repr input_ context (set_log lg2 (set_root_config rc2 st1))
             = Ok rs3 st3
          /\ resolved_responder_field st3 field = Some v).
Proof.
  split; [|split].
  - intros config root lg field ref local Href Hlocal.
    rewrite (resolve_var_refs_field _ _ _ _ _ Hlocal).
    unfold resolve_field. now rewrite Href.
  - intros context config. split; reflexivity.
  - intros input_ context st plugin_config responder_config field ref local slot
           rhs v loc Hp Hr Href Hlocal Hslot Hfresh Hconv.
    destruct (generate_responses_resolves input_ context st _ _ Hp Hr)
      as (st1 & lg1 & Hrun1 & Hroot1 & Hexfil1).
    set (rc2 := <[var_name ref := mkFieldSlot (slot_type slot) v true]> (root_config st1)).
    destruct (generate_responses_resolves input_ context
                (set_log (log st1) (set_root_config rc2 st1)) _ _ Hp Hr)
      as (st3 & lg3 & Hrun3 & Hroot3 & Hexfil3).
    eexists st1, _, rc2, (log st1), st3, _.
    split; [exact Hrun1|]. split; [|split; [|split; [exact Hrun3|]]].
    + unfold resolved_responder_field. rewrite Hexfil1.
      rewrite (resolve_var_refs_field _ _ _ _ _ Hlocal).
      unfold resolve_field. now rewrite Href, Hslot, Hfresh.
    + unfold assign_field_spec. rewrite Hroot1, Hslot, Hconv. subst rc2.
      now rewrite Hroot1.
    + unfold resolved_responder_field. rewrite Hexfil3.
      rewrite (resolve_var_refs_field _ _ _ _ _ Hlocal).
      unfold resolve_field. rewrite Href.
      cbn [root_config set_log set_root_config]. subst rc2.
      now rewrite lookup_insert_eq.
Qed.
End ResolutionClaim.

(** ** The claims on sample documents *)

(** C1, the claim as written fails: a command whose text is a lone
    exclamation mark, in a message that is not the last one, is not skipped
    silently: the pass reports it as unknown-command. *)
Lemma exclamation_gate_counterexample :
  exists w',
    interpret_commands (H := Sample.host)
      [Sample.message 10 [Sample.command 1 "!"]; Sample.message 20 []]
      true Sample.world0
    = Ok tt w'
    /\ log (state Sample.world0) = []
    /\ log (state w')
       = [mkDiagnostic LError (Some "unknown-command") "couldn't interpret command '!'"
            (AtLocation (Sample.at_line 1))].
Proof. eexists. repeat split; vm_compute; reflexivity. Qed.

(** C1 on a sample: [!respond now] in the second of three messages of a final
    pass is skipped. *)
Lemma exclamation_gate_witness :
  let c := mkRef 2 (mkCommand "!respond now" true (Sample.at_line 2)) in
  let m := Sample.message 20 [CommandItem c; Sample.command 3 "act_name hello"] in
  let pre := [Sample.message 10 [Sample.command 1 "an_int = 42"]] in
  let post := [Sample.message 30 [Sample.command 4 "!respond later"]] in
  parse_command (text (obj c)) = Some (true, "respond", false, "now")
  /\ interpret_commands (H := Sample.host) (pre ++ m :: post)%list true Sample.world0
     = (for_each pre (interpret_message (H := Sample.host) (last (pre ++ m :: post)%list)) ;;
        for_each [] (interpret_item (H := Sample.host) false) ;;
        set_result c RNone ;;
        for_each [Sample.command 3 "act_name hello"] (interpret_item (H := Sample.host) false) ;;
        for_each post (interpret_message (H := Sample.host) (last (pre ++ m :: post)%list)))
       Sample.world0.
Proof.
  intros c m pre post.
  assert (Hp : parse_command (text (obj c)) = Some (true, "respond", false, "now"))
    by (vm_compute; reflexivity).
  split; [exact Hp|].
  exact (proj2 (exclamation_gate (H := Sample.host) pre post m [] 
                  [Sample.command 3 "act_name hello"] c true true false "respond" "now"
                  Sample.world0 eq_refl eq_refl eq_refl Hp)).
Defined.



(** C4 on the sample registry: [dup] is registered in two namespaces, [nope]
    in none. *)
Lemma lookup_failure_reported_witness :
  (lookup_action_spec Sample.registry "nope" = []
   /\ run_action (H := Sample.host) true "nope" "" (Sample.at_line 1) Sample.state0
      = Ok RNone
          (set_log
             (log_error "action-not-found" "couldn't run action 'nope'. action not found."
                (Sample.at_line 1) []) Sample.state0))
  /\ (2 <= List.length (lookup_action_spec Sample.registry "dup")
      /\ exists alternatives,
           _join_alternatives (map qualified_name (lookup_action_spec Sample.registry "dup"))
           = Some alternatives
           /\ (forall a, In a (lookup_action_spec Sample.registry "dup") ->
                         occurs_in (qualified_name a) alternatives)
           /\ run_action (H := Sample.host) false "dup" "" (Sample.at_line 5) Sample.state0
              = Ok RNone
                  (set_log
                     (log_error "ambiguous-action-name"
                        ("didn't run action 'dup'. action name is ambiguous, did you mean: "
                         ++ alternatives)
                        (Sample.at_line 5) []) Sample.state0)).
Proof.
  split.
  - split; [reflexivity|].
    exact (proj1 (lookup_failure_reported (H := Sample.host) true "nope" ""
                    (Sample.at_line 1) Sample.state0 _ eq_refl) eq_refl).
  - assert (Hlen : 2 <= List.length (lookup_action_spec Sample.registry "dup"))
      by (vm_compute; lia).
    split; [exact Hlen|].
        exact (proj1 (proj2 (lookup_failure_reported (H := Sample.host) false "dup" ""
                           (Sample.at_line 5) Sample.state0 _ eq_refl)) Hlen).
Defined.

(** C5 on a sample: [respond] is exclamation-only. *)
Lemma exclamation_only_refused_witness :
  parse_command "respond" = Some (false, "respond", false, EmptyString)
  /\ lookup_action_spec Sample.registry "respond" = [mkAction "test.respond" true 1 None]
  /\ _interpret_command (H := Sample.host) "respond" true (Sample.at_line 6) Sample.state0
     = Ok RNone
         (set_log
            (log_error "excl-only-action-without-excl"
               "didn't run action 'respond'. action is !-only but written without a '!'"
               (Sample.at_line 6) []) Sample.state0).
Proof.
  assert (Hp : parse_command "respond" = Some (false, "respond", false, EmptyString))
    by (vm_compute; reflexivity).
  assert (Hm : lookup_action_spec Sample.registry "respond"
               = [mkAction "test.respond" true 1 None]) by (vm_compute; reflexivity).
  split; [exact Hp|]. split; [exact Hm|].
    exact (proj1 (proj2 (exclamation_only_refused (H := Sample.host) "respond" "respond"
                         EmptyString true (Sample.at_line 6) Sample.state0 _ _ Hp eq_refl
                         Hm eq_refl))).
Defined.

(** C8 on a sample: [act_name hello] runs function 0 and stores its value. *)
Lemma unique_match_dispatched_witness :
  let c := mkRef 3 (mkCommand "act_name hello" true (Sample.at_line 3)) in
  parse_command (text (obj c)) = Some (false, "act_name", false, "hello")
  /\ lookup_action_spec Sample.registry "act_name" = [mkAction "test.act_name" false 0 None]
  /\ interpret_item (H := Sample.host) false (CommandItem c) Sample.world0
     = Ok tt (mkWorld Sample.state0 (<[3 := RStr "act_name(hello)"]> ∅)).
Proof.
  intros c.
  assert (Hp : parse_command (text (obj c)) = Some (false, "act_name", false, "hello"))
    by (vm_compute; reflexivity).
  assert (Hm : lookup_action_spec Sample.registry "act_name"
               = [mkAction "test.act_name" false 0 None]) by (vm_compute; reflexivity).
  split; [exact Hp|]. split; [exact Hm|].
  exact (proj2 (unique_match_dispatched (H := Sample.host) c false false "act_name" "hello"
                  Sample.world0 _ _ eq_refl Hp (or_introl eq_refl) eq_refl Hm
                  (or_introl eq_refl))).
Defined.

(** C6 on a sample: two blanks after the equals sign. *)
Lemma malformed_assignments_witness :
  all_chars is_space "  " = true
  /\ _interpret_command (H := Sample.host) "field =  " false (Sample.at_line 1) Sample.state0
     = Ok RNone
         (set_log
            (log_error "skiping-empty-assignment"
               "skipping configuration assignment with no right-hand-side 'field =  '"
               (Sample.at_line 1) []) Sample.state0).
Proof.
  split; [reflexivity|].
  exact (proj1 (proj2 (proj2 (proj2 (malformed_assignments (H := Sample.host) false
                                       (Sample.at_line 1) Sample.state0))
                         "  " eq_refl))).
Defined.

(** C7 on a sample: [an_int = 42]. *)
Lemma assignment_sets_field_idempotently_witness :
  let st1 :=
    set_root_config (<["an_int" := mkFieldSlot TInt (VInt 42) true]> Sample.root)
      Sample.state0 in
  _interpret_command (H := Sample.host) "an_int = 42" false (Sample.at_line 1) Sample.state0
  = Ok RNone st1
  /\ root_config st1 !! "an_int" = Some (mkFieldSlot TInt (VInt 42) true)
  /\ _interpret_command (H := Sample.host) "an_int = 42" false (Sample.at_line 2) st1
     = Ok RNone st1.
Proof.
  exact (assignment_sets_field_idempotently Sample.convert Sample.explain
           lookup_action_spec Sample.functions "an_int" "42" false false
           (Sample.at_line 1) (Sample.at_line 2) Sample.state0
           (mkFieldSlot TInt (VInt 0) false) (VInt 42)
           ltac:(discriminate) eq_refl ltac:(discriminate) eq_refl eq_refl).
Defined.

(** C2 on the test responder: [temperature] is 1 locally and unassigned in
    the root configuration; after the assignment of 3 to the root path the
    next call resolves it to 3. *)
Lemma var_refs_resolved_on_every_read_witness :
  exists st1 rs1 rc2 lg2 st3 rs3,
    generate_responses Sample.repr [] Sample.responder_context Sample.state0 = Ok rs1 st1
    /\ resolved_responder_field st1 "temperature" = Some (VInt 1)
    /\ assign_field_spec Sample.convert Sample.explain (root_config st1) "temperature" "3"
         (Sample.at_line 1) (log st1)
       = Ok tt (rc2, lg2)
    /\ generate_responses Sample.repr [] Sample.responder_context
         (set_log lg2 (set_root_config rc2 st1))
       = Ok rs3 st3
    /\ resolved_responder_field st3 "temperature" = Some (VInt 3).
Proof.
  pose proof (proj2 (proj2 (var_refs_resolved_on_every_read Sample.repr Sample.convert
                              Sample.explain))) as Hw.
  apply (Hw [] Sample.responder_context Sample.state0
            (register_configuration (TestResponderPluginConfiguration, []))
            (register_configuration (construct_configuration (mkResponderContext None None)))
            "temperature" (mkVarRef "temperature") (VInt 1)
            (mkFieldSlot TInt (VInt 7) false) "3" (VInt 3) (Sample.at_line 1));
    vm_compute; reflexivity.
Defined.

(** C9 on samples: a disabled command does not count; text after [true]
    does not prevent the match. *)
Lemma is_config_root_scan_witness :
  is_config_root
    [Sample.message 10
       [TextItem "notes";
        CommandItem (mkRef 1 (mkCommand "config_root = true" false (Sample.at_line 1)))];
     Sample.message 20 [Sample.command 2 "  prapti.config_root=truest"]]
  = true
  /\ is_config_root
       [Sample.message 10
          [CommandItem (mkRef 1 (mkCommand "config_root = true" false (Sample.at_line 1)))];
        Sample.message 20 [Sample.command 2 "config_root = false"]]
     = false.
Proof.
  split.
  - apply (proj1 (is_config_root_scan _)).
    exists (Sample.message 20 [Sample.command 2 "  prapti.config_root=truest"]),
           (mkRef 2 (mkCommand "  prapti.config_root=truest" true (Sample.at_line 2))).
    repeat split; try (vm_compute; tauto).
    vm_compute. eexists. reflexivity.
  - vm_compute. reflexivity.
Defined.

(** ** Further properties of the sources *)

(** *** [convert_message_sequence_to_text_prompt] *)

Section KoboldcppFacts.
Variable message_source_loc : Ref Message -> SourceLocation.

Lemma convert_message_hidden message result log :
  is_public message = false ->
  convert_message message_source_loc message result log = Ok result log.
Proof.
  unfold is_public, convert_message. intros Hp.
  replace (negb (is_enabled (obj message)) || is_private (obj message)) with true;
    [reflexivity|].
  destruct (is_enabled (obj message)), (is_private (obj message)); simpl in *; congruence.
Qed.

Lemma convert_message_public message result log :
  is_public message = true ->
  convert_message message_source_loc message result log
  = if is_prompt message then
      if is_flattened message then Ok (result ++ prompt_text message) log
      else Exn AssertionError log
    else Ok result (log ++ role_warning message_source_loc message)%list.
Proof.
  unfold convert_message, prompt_text, role_warning, is_flattened. intros Hp. rewrite Hp.
  unfold is_public in Hp. apply andb_prop in Hp as [-> Hpriv].
  apply negb_true_iff in Hpriv as ->. cbn [negb orb andb].
  unfold is_prompt. destruct (String.eqb (role (obj message)) "prompt"); cbn [negb andb].
  - destruct (content (obj message)) as [|[t|c] [|i l]]; reflexivity.
  - destruct (String.eqb (role (obj message)) "user"
              || String.eqb (role (obj message)) "assistant"); reflexivity.
Qed.

(** The loop only appends to [result]. *)
Lemma convert_messages_from ms result log :
  convert_messages message_source_loc ms result log
  = match convert_messages message_source_loc ms EmptyString log with
    | Ok p log' => Ok (result ++ p) log'
    | Exn e log' => Exn e log'
    end.
Proof.
  revert result log. induction ms as [|m ms IH]; intros result log; cbn [convert_messages].
  - unfold ret. now rewrite append_empty_r.
  - unfold bind. destruct (is_public m) eqn:Hp.
    + rewrite !convert_message_public by assumption.
      destruct (is_prompt m); [destruct (is_flattened m)|]; try reflexivity.
      * rewrite (IH (result ++ prompt_text m)), (IH (EmptyString ++ prompt_text m)).
        destruct (convert_messages _ ms EmptyString log); [|reflexivity].
        now rewrite append_assoc.
      * apply IH.
    + rewrite !convert_message_hidden by assumption. apply IH.
Qed.

Lemma convert_messages_app l1 l2 result log :
  convert_messages message_source_loc (l1 ++ l2)%list result log
  = match convert_messages message_source_loc l1 result log with
    | Ok result' log' => convert_messages message_source_loc l2 result' log'
    | Exn e log' => Exn e log'
    end.
Proof.
  revert result log. induction l1 as [|x l1 IH]; intros result log; [reflexivity|].
  cbn [app convert_messages]. unfold bind.
  destruct (convert_message _ x result log); [apply IH | reflexivity].
Qed.

Lemma convert_messages_flattened ms log :
  (forall m, In m ms ->
             is_public m = true -> is_prompt m = true -> is_flattened m = true) ->
  convert_messages message_source_loc ms EmptyString log
  = Ok (concat_strings (map prompt_text ms))
       (log ++ flat_map (role_warning message_source_loc) ms)%list.
Proof.
  revert log. induction ms as [|m ms IH]; intros log Hflat.
  - cbn. unfold ret. now rewrite app_nil_r.
  - cbn [convert_messages map flat_map concat_strings]. unfold bind.
    assert (Hms : forall m', In m' ms ->
                    is_public m' = true -> is_prompt m' = true -> is_flattened m' = true)
      by (intros; apply Hflat; [now right | assumption..]).
    destruct (is_public m) eqn:Hp.
    + rewrite convert_message_public by assumption.
      destruct (is_prompt m) eqn:Hr.
      * rewrite (Hflat m (or_introl eq_refl) Hp Hr).
        rewrite convert_messages_from, (IH _ Hms).
        unfold role_warning. rewrite Hp, Hr. reflexivity.
      * rewrite (IH _ Hms). unfold prompt_text. rewrite Hp, Hr. cbn [andb].
        now rewrite <- app_assoc.
    + rewrite convert_message_hidden by assumption. rewrite (IH _ Hms).
      unfold prompt_text, role_warning. rewrite Hp. reflexivity.
Qed.

(** X1.  Disabled and private messages take no part in the conversion: the
    prompt, the warnings and a failing assertion are those of the enabled,
    public messages alone.  In particular the content of a private message
    never reaches the prompt. *)
Theorem hidden_messages_do_not_reach_the_prompt (message_sequence : list (Ref Message))
    (log : DiagnosticsLogger) :
  convert_message_sequence_to_text_prompt message_source_loc message_sequence log
  = convert_message_sequence_to_text_prompt message_source_loc
      (List.filter is_public message_sequence) log.
Proof.
  unfold convert_message_sequence_to_text_prompt. generalize EmptyString as result.
  revert log. induction message_sequence as [|m ms IH]; intros log result; [reflexivity|].
  cbn [List.filter convert_messages]. destruct (is_public m) eqn:Hp.
  - cbn [convert_messages]. unfold bind.
    destruct (convert_message _ m result log); [apply IH | reflexivity].
  - unfold bind. rewrite convert_message_hidden by assumption. apply IH.
Qed.

(** X2.  When every enabled, public prompt message is flattened (its content
    is one string), the conversion returns the concatenation of those
    strings in the order of the sequence, and reports one warning, in that
    order too, for every enabled, public message of another role:
    unsupported-chat-role for user and assistant, unrecognised-public-role
    for the rest.  An empty sequence gives the empty prompt. *)
Theorem prompt_is_concatenation_of_prompt_messages
    (message_sequence : list (Ref Message)) (log : DiagnosticsLogger) :
  (forall m, In m message_sequence ->
             is_public m = true -> is_prompt m = true -> is_flattened m = true) ->
  convert_message_sequence_to_text_prompt message_source_loc message_sequence log
  = Ok (concat_strings (map prompt_text message_sequence))
       (log ++ flat_map (role_warning message_source_loc) message_sequence)%list.
Proof. apply convert_messages_flattened. Qed.

(** X3.  The first enabled, public prompt message that is not flattened
    fails the assertion: the conversion raises AssertionError, no prompt is
    returned, the messages after it are not looked at, and the log holds the
    warnings reported up to there. *)
Theorem unflattened_prompt_message_fails_assertion
    (before after : list (Ref Message)) (message : Ref Message)
    (log : DiagnosticsLogger) :
  (forall m, In m before ->
             is_public m = true -> is_prompt m = true -> is_flattened m = true) ->
  is_public message = true ->
  is_prompt message = true ->
  is_flattened message = false ->
  convert_message_sequence_to_text_prompt message_source_loc
    (before ++ message :: after)%list log
  = Exn AssertionError (log ++ flat_map (role_warning message_source_loc) before)%list.
Proof.
  intros Hbefore Hp Hr Hf. unfold convert_message_sequence_to_text_prompt.
  rewrite convert_messages_app, (convert_messages_flattened before log Hbefore).
  cbn [convert_messages]. unfold bind.
  rewrite convert_message_public by assumption. now rewrite Hr, Hf.
Qed.

(** X4.  Converting a sequence in two parts, one after the other on the same
    log, and joining the two prompts gives what converting the whole sequence
    gives: the same prompt, the same warnings in the same order, and the same
    failure if an assertion fails. *)
Theorem conversion_of_concatenation (first second : list (Ref Message))
    (log : DiagnosticsLogger) :
  convert_message_sequence_to_text_prompt message_source_loc (first ++ second)%list log
  = (p1 <- convert_message_sequence_to_text_prompt message_source_loc first ;;
     p2 <- convert_message_sequence_to_text_prompt message_source_loc second ;;
     ret (p1 ++ p2)) log.
Proof.
  unfold convert_message_sequence_to_text_prompt, bind, ret.
  rewrite convert_messages_app.
  destruct (convert_messages _ first EmptyString log) as [p1 log1|e log1]; [|reflexivity].
  rewrite convert_messages_from.
  destruct (convert_messages _ second EmptyString log1); reflexivity.
Qed.

End KoboldcppFacts.

(** *** [run_action], [_interpret_command], [interpret_commands] *)

Section PassFacts.
Context `{Host}.

(** X5.  [run_action] raises in two ways only.  On a state that holds no
    core state its first statement raises TypeError, with nothing changed.
    On a state that holds one, it raises exactly what the function of the
    one matched action raises, when the exclamation policy lets that action
    run.  The two lookups that could raise IndexError are never out of
    range: [matches[0]] is read only when there is one match, and
    [_join_alternatives] is called only with two or more names. *)
Theorem run_action_raises_only_from_the_action (has_exclamation : bool)
    (action_name raw_args : string) (loc : SourceLocation)
    (st st' : ExecutionState) (e : Exception) :
  (private_core_state st = None ->
   run_action has_exclamation action_name raw_args loc st = Exn TypeError st)
  /\ (run_action has_exclamation action_name raw_args loc st = Exn e st' <->
      (private_core_state st = None /\ e = TypeError /\ st' = st)
      \/ (exists core_state action,
            private_core_state st = Some core_state
            /\ lookup_action (actions core_state) action_name = [action]
            /\ (exclamation_only action = false \/ has_exclamation = true)
            /\ action_function (function action) action_name raw_args
                 (mkActionContext st (root_config st) (plugin_config action) loc (log st))
               = Exn e st')).
Proof.
  split; [apply run_action_no_core_state | apply run_action_raises].
Qed.

(** X6.  A pass raises exactly in these ways.  Called as final on an empty
    sequence it raises IndexError at once, with nothing changed.  Otherwise
    it has come to an enabled command of an enabled message, everything
    before that command having returned, and the command is not one that
    waits for the final message; and either the command is an assignment
    with a right-hand side and the call of [assign_field] on the state then
    reached raised; or it is an action command and the state then reached
    holds no core state (TypeError); or it is an action command and the
    call of the function of the one action found raised.  What the pass
    raises, and the state it leaves, are those of that call; the results
    are those written before the command. *)
Theorem pass_raises_only_from_collaborators (message_sequence : list (Ref Message))
    (is_final_sequence : bool) (w w' : World) (e : Exception) :
  interpret_commands message_sequence is_final_sequence w = Exn e w'
  <-> (e = IndexError /\ message_sequence = [] /\ is_final_sequence = true /\ w' = w)
      \/ (exists (m : Ref Message) (c : Ref Command) (is_final_message : bool)
                 (w1 : World) (st' : ExecutionState) (excl : bool) (name : string)
                 (eq : bool) (rest : string),
            reaches message_sequence is_final_sequence w m c is_final_message w1
            /\ w' = mkWorld st' (results w1)
            /\ parse_command (text (obj c)) = Some (excl, name, eq, rest)
            /\ (excl = false \/ is_final_message = true)
            /\ if eq
               then is_empty (strip rest) = false
                    /\ exists root_config' log',
                         assign_field (root_config (state w1)) name (strip rest)
                           (source_loc (obj c)) (log (state w1))
                         = Exn e (root_config', log')
                         /\ st' = set_log log' (set_root_config root_config' (state w1))
               else (private_core_state (state w1) = None
                     /\ e = TypeError /\ st' = state w1)
                    \/ (exists core_state action,
                          private_core_state (state w1) = Some core_state
                          /\ lookup_action (actions core_state) name = [action]
                          /\ (exclamation_only action = false \/ excl = true)
                          /\ action_function (function action) name (strip rest)
                               (mkActionContext (state w1) (root_config (state w1))
                                  (plugin_config action) (source_loc (obj c))
                                  (log (state w1)))
                             = Exn e st')).
Proof.
  rewrite pass_raises_at. split.
  - intros [Hempty | (m & c & flag & w1 & st' & Hreach & Hr & ->)]; [now left|].
    right. apply interpret_command_raises in Hr
      as (excl & name & eq & rest & Hp & Hgate & Hr).
    exists m, c, flag, w1, st', excl, name, eq, rest. now repeat split.
  - intros [Hempty | (m & c & flag & w1 & st' & excl & name & eq & rest
                      & Hreach & -> & Hp & Hgate & Hr)]; [now left|].
    right. exists m, c, flag, w1, st'. repeat split; [exact Hreach|].
    apply interpret_command_raises. exists excl, name, eq, rest. now repeat split.
Qed.

Lemma interpret_item_frame flag item w a :
  ~ In a (visited_item item) ->
  results (outcome_world (interpret_item flag item w)) !! a = results w !! a.
Proof.
  destruct item as [t|c]; cbn [interpret_item visited_item]; [reflexivity|].
  destruct (cmd_is_enabled (obj c)); [|reflexivity].
  intros Hna. unfold bind, lift_state, set_result.
  destruct (_interpret_command _ _ _ _); cbn [outcome_world results]; [|reflexivity].
  apply lookup_insert_ne. intros Heq. apply Hna. now left.
Qed.

Lemma for_each_frame {A : Type} (body : A -> M World unit) (sites : A -> list ObjId)
    (l : list A) a :
  (forall x w, ~ In a (sites x) ->
               results (outcome_world (body x w)) !! a = results w !! a) ->
  forall w, ~ In a (flat_map sites l) ->
            results (outcome_world (for_each l body w)) !! a = results w !! a.
Proof.
  intros Hbody. induction l as [|x l IH]; intros w Hna; [reflexivity|].
  cbn [for_each flat_map] in *. unfold bind.
  assert (Hx : ~ In a (sites x)) by (intros Hin; apply Hna, in_or_app; now left).
  assert (Hl : ~ In a (flat_map sites l)) by (intros Hin; apply Hna, in_or_app; now right).
  specialize (Hbody x w Hx).
  destruct (body x w) as [[] w1|e w1]; cbn [outcome_world] in *.
  - now rewrite IH.
  - exact Hbody.
Qed.

(** X7.  A pass changes the [result] of no command but the enabled commands
    of the enabled messages of its sequence: for every other command object
    (disabled, in a disabled message, or not in the sequence at all) the
    result after the pass is the result before it, whether the pass returns
    or raises. *)
Theorem pass_writes_only_visited_results (message_sequence : list (Ref Message))
    (is_final_sequence : bool) (w : World) (a : ObjId) :
  ~ In a (visited message_sequence) ->
  results (outcome_world (interpret_commands message_sequence is_final_sequence w)) !! a
  = results w !! a.
Proof.
  intros Hna. unfold interpret_commands, bind.
  destruct (final_message_of message_sequence is_final_sequence w) as [fm w0|e w0] eqn:Hf.
  - assert (w0 = w) as ->.
    { unfold final_message_of in Hf. destruct is_final_sequence;
        [destruct (last message_sequence)|]; now inversion Hf. }
    apply (for_each_frame (interpret_message fm) visited_message); [|exact Hna].
    intros m w1 Hm. unfold interpret_message, visited_message in *.
    destruct (is_enabled (obj m)); [|reflexivity].
    apply (for_each_frame _ visited_item); [|exact Hm].
    intros. now apply interpret_item_frame.
  - unfold final_message_of in Hf. destruct is_final_sequence;
      [destruct (last message_sequence)|]; now inversion Hf.
Qed.

Lemma for_each_ext {St A : Type} (f g : A -> M St unit) (l : list A) :
  (forall x s, In x l -> f x s = g x s) ->
  forall s, for_each l f s = for_each l g s.
Proof.
  induction l as [|x l IH]; intros Hfg s; [reflexivity|].
  cbn [for_each]. unfold bind. rewrite (Hfg x s (or_introl eq_refl)).
  destruct (g x s); [|reflexivity]. apply IH. intros; apply Hfg. now right.
Qed.

(** X8.  When the last message of the sequence is disabled, and no enabled
    message is that same object, a final pass does what a non-final pass
    does: no command written with an exclamation mark runs, in any
    message. *)
Theorem disabled_last_message_defers_everything (message_sequence : list (Ref Message))
    (final : Ref Message) (w : World) :
  last message_sequence = Some final ->
  is_enabled (obj final) = false ->
  (forall m, In m message_sequence -> is_enabled (obj m) = true -> addr m <> addr final) ->
  interpret_commands message_sequence true w = interpret_commands message_sequence false w.
Proof.
  intros Hlast Hdis Hother. unfold interpret_commands, bind, final_message_of.
  rewrite Hlast. unfold ret. apply for_each_ext. intros m s Hin.
  unfold interpret_message. destruct (is_enabled (obj m)) eqn:Hen; [|reflexivity].
  cbn [is_]. replace (Nat.eqb (addr m) (addr final)) with false; [reflexivity|].
  symmetry. apply Nat.eqb_neq. now apply Hother.
Qed.

(** X9.  Passes compose.  A non-final pass over a concatenation is the
    non-final pass over the first part followed by the non-final pass over
    the second.  A final pass over a concatenation whose second part is not
    empty is the non-final pass over the first part followed by the final
    pass over the second, provided no enabled message of the first part is
    the same object as the last message. *)
Theorem passes_compose (first second : list (Ref Message)) (w : World) :
  interpret_commands (first ++ second)%list false w
  = (interpret_commands first false ;; interpret_commands second false) w
  /\ (forall final,
        last second = Some final ->
        (forall m, In m first -> is_enabled (obj m) = true -> addr m <> addr final) ->
        interpret_commands (first ++ second)%list true w
        = (interpret_commands first false ;; interpret_commands second true) w).
Proof.
  split.
  - unfold interpret_commands, bind, final_message_of, ret.
    rewrite for_each_app. unfold bind.
    destruct (for_each first _ w) as [[] w1|e w1]; reflexivity.
  - intros final Hlast Hother.
    assert (Hlast' : last (first ++ second)%list = Some final).
    { apply last_app_Some. now left. }
    unfold interpret_commands, bind, final_message_of, ret.
    rewrite Hlast', Hlast, for_each_app. unfold bind.
    rewrite (for_each_ext (interpret_message (Some final)) (interpret_message None) first).
    + destruct (for_each first _ w) as [[] w1|e w1]; reflexivity.
    + intros m s Hin. unfold interpret_message.
      destruct (is_enabled (obj m)) eqn:Hen; [|reflexivity].
      cbn [is_]. replace (Nat.eqb (addr m) (addr final)) with false; [reflexivity|].
      symmetry. apply Nat.eqb_neq. now apply Hother.
Qed.

Lemma for_each_filter {St A : Type} (keep : A -> bool) (body : A -> M St unit)
    (l : list A) :
  (forall x s, keep x = false -> body x s = Ok tt s) ->
  forall s, for_each (List.filter keep l) body s = for_each l body s.
Proof.
  intros Hskip. induction l as [|x l IH]; intros s; [reflexivity|].
  cbn [List.filter for_each]. destruct (keep x) eqn:Hk.
  - cbn [for_each]. unfold bind. destruct (body x s); [apply IH | reflexivity].
  - unfold bind. rewrite (Hskip x s Hk). apply IH.
Qed.

Lemma for_each_map {St A B : Type} (g : A -> B) (body : B -> M St unit) (l : list A) s :
  for_each (map g l) body s = for_each l (fun x => body (g x)) s.
Proof.
  revert s. induction l as [|x l IH]; intros s; [reflexivity|].
  cbn [map for_each]. unfold bind. destruct (body (g x) s); [apply IH | reflexivity].
Qed.

Lemma last_map {A B : Type} (g : A -> B) (l : list A) :
  last (map g l) = option_map g (last l).
Proof.
  induction l as [|x [|y l] IH]; [reflexivity..|].
  change (last (map g (x :: y :: l))) with (last (map g (y :: l))).
  change (last (x :: y :: l)) with (last (y :: l)). exact IH.
Qed.

Lemma interpret_message_prune fm m w :
  interpret_message (option_map prune fm) (prune m) w = interpret_message fm m w.
Proof.
  unfold interpret_message. cbn [prune obj is_enabled content].
  destruct (is_enabled (obj m)); [|reflexivity].
  replace (is_ (prune m) (option_map prune fm)) with (is_ m fm) by now destruct fm.
  apply for_each_filter. intros [t|c] s; cbn [is_live interpret_item]; [reflexivity|].
  now intros ->.
Qed.

(** X10.  Text items and disabled commands are inert: a pass over the
    sequence in which every message has lost them (the message objects being
    the same) is the pass over the sequence itself, with the same state, the
    same results and the same exception if there is one. *)
Theorem inert_items_can_be_dropped (message_sequence : list (Ref Message))
    (is_final_sequence : bool) (w : World) :
  interpret_commands (map prune message_sequence) is_final_sequence w
  = interpret_commands message_sequence is_final_sequence w.
Proof.
  unfold interpret_commands, bind, final_message_of.
  destruct is_final_sequence.
  - rewrite last_map. destruct (last message_sequence) as [final|]; [|reflexivity].
    cbn [option_map]. unfold ret. rewrite for_each_map.
    apply for_each_ext. intros m s _. apply (interpret_message_prune (Some final)).
  - unfold ret. rewrite for_each_map.
    apply for_each_ext. intros m s _. apply (interpret_message_prune None).
Qed.

Lemma over_results_for_each {A : Type} (body : A -> M World unit) (old : gmap ObjId Result)
    (l : list A) :
  (forall x w, body x (mkWorld (state w) (results w ∪ old)) = over_results old (body x w)) ->
  forall w, for_each l body (mkWorld (state w) (results w ∪ old))
            = over_results old (for_each l body w).
Proof.
  intros Hbody. induction l as [|x l IH]; intros w; [reflexivity|].
  cbn [for_each]. unfold bind. rewrite Hbody.
  destruct (body x w) as [[] w1|e w1]; cbn [over_results]; [apply IH | reflexivity].
Qed.

Lemma over_results_item flag item old w :
  interpret_item flag item (mkWorld (state w) (results w ∪ old))
  = over_results old (interpret_item flag item w).
Proof.
  destruct item as [t|c]; cbn [interpret_item]; [reflexivity|].
  destruct (cmd_is_enabled (obj c)); [|reflexivity].
  unfold bind, lift_state, set_result. cbn [state results].
  destruct (_interpret_command _ _ _ _); cbn [over_results state results]; [|reflexivity].
  now rewrite insert_union_l.
Qed.

(** X11.  A pass does not read the results of earlier passes: a command
    that already has a result is interpreted again.  Started with results
    [old] in place, a pass reaches the state, returns or raises, and writes
    the results that it does when started with none; the results that it
    does not write stay as they were. *)
Theorem pass_ignores_earlier_results (message_sequence : list (Ref Message))
    (is_final_sequence : bool) (st : ExecutionState) (old : gmap ObjId Result) :
  interpret_commands message_sequence is_final_sequence (mkWorld st old)
  = over_results old (interpret_commands message_sequence is_final_sequence (mkWorld st ∅)).
Proof.
  assert (Hw : mkWorld st old
               = mkWorld (state (mkWorld st ∅)) (results (mkWorld st ∅) ∪ old)).
  { cbn [state results]. now rewrite (left_id_L ∅ (∪)). }
  rewrite Hw. generalize (mkWorld st ∅) as w. clear Hw. intros w.
  unfold interpret_commands, bind, final_message_of.
  assert (Hloop : forall fm,
             for_each message_sequence (interpret_message fm)
               (mkWorld (state w) (results w ∪ old))
             = over_results old (for_each message_sequence (interpret_message fm) w)).
  { intros fm. apply over_results_for_each. intros m w1. unfold interpret_message.
    destruct (is_enabled (obj m)); [|reflexivity].
    apply over_results_for_each. intros. apply over_results_item. }
  destruct is_final_sequence; [destruct (last message_sequence)|];
    unfold ret, raise; try apply Hloop. reflexivity.
Qed.

End PassFacts.

(** The groups of a match of [command_regex] and the parsed command. *)
Lemma command_regex_groups s m :
  re_match command_regex s = Some m ->
  exists excl name eq rest,
    parse_command s = Some (excl, name, eq, rest)
    /\ truthy (group m 1) = excl
    /\ group m 2 = Some name
    /\ truthy (group m 3) = eq
    /\ group m 4 = Some rest.
Proof.
  rewrite command_regex_parse.
  destruct (parse_command s) as [[[[excl name] eq] rest]|]; [|discriminate].
  intros [= <-]. exists excl, name, eq, rest.
  destruct excl, eq; repeat split; reflexivity.
Qed.

(** X12.  Assignments and actions do not mix.  A text in which an equals
    sign follows the name is interpreted without the action registry and
    without any action function, whatever action is registered under the
    name; a text without that equals sign is interpreted without
    [assign_field]; a text that does not match the pattern is interpreted
    without any of the three. *)
Theorem assignments_and_actions_are_separate
    (lookup1 lookup2 : ActionNamespace -> string -> list Action)
    (assign1 assign2 :
       RootConfiguration -> string -> string -> SourceLocation -> DiagnosticsLogger ->
       Res (RootConfiguration * DiagnosticsLogger) unit)
    (functions1 functions2 :
       FunctionId -> string -> string -> ActionContext -> Res ExecutionState Result)
    (command_text : string) (b : bool) (loc : SourceLocation) (st : ExecutionState) :
  match re_match command_regex command_text with
  | Some m =>
      if truthy (group m 3) then
        _interpret_command (H := mkHost lookup1 assign1 functions1) command_text b loc st
        = _interpret_command (H := mkHost lookup2 assign1 functions2) command_text b loc st
      else
        _interpret_command (H := mkHost lookup1 assign1 functions1) command_text b loc st
        = _interpret_command (H := mkHost lookup1 assign2 functions1) command_text b loc st
  | None =>
      _interpret_command (H := mkHost lookup1 assign1 functions1) command_text b loc st
      = _interpret_command (H := mkHost lookup2 assign2 functions2) command_text b loc st
  end.
Proof.
  destruct (re_match command_regex command_text) as [m|] eqn:Hm.
  - destruct (command_regex_groups _ _ Hm) as (excl & name & eq & rest & Hp & _ & _ & -> & _).
    rewrite !interpret_command_parsed, Hp.
    destruct eq; destruct (negb excl || excl && b); reflexivity.
  - rewrite command_regex_parse in Hm.
    rewrite !interpret_command_parsed.
    destruct (parse_command command_text); [discriminate | reflexivity].
Qed.

(** *** What [command_regex] accepts *)

Lemma take_drop_while p s : take_while p s ++ drop_while p s = s.
Proof.
  induction s as [|c s IH]; [reflexivity|]. cbn [take_while drop_while].
  destruct (p c); [|reflexivity]. now rewrite append_String, IH.
Qed.

Lemma all_chars_take_while p s : all_chars p (take_while p s) = true.
Proof.
  induction s as [|c s IH]; [reflexivity|]. cbn [take_while].
  destruct (p c) eqn:Hc; [|reflexivity]. cbn [all_chars]. now rewrite Hc, IH.
Qed.

Lemma not_newline_false c : is_not_newline c = false -> c = "010"%char.
Proof. by_cases_on_char c. Qed.

Lemma drop_while_not_newline s :
  drop_while is_not_newline s = EmptyString
  \/ exists t, drop_while is_not_newline s = String "010" t.
Proof.
  induction s as [|c s IH]; [now left|]. cbn [drop_while].
  destruct (is_not_newline c) eqn:Hc; [exact IH|].
  right. exists s. now rewrite (not_newline_false c Hc).
Qed.

Lemma split_excl_append s :
  s = (if fst (split_excl s) then "!" else EmptyString) ++ snd (split_excl s).
Proof.
  unfold split_excl. destruct s as [|c t]; [reflexivity|].
  destruct (Ascii.eqb "!" c) eqn:Hc; [|reflexivity].
  apply Ascii.eqb_eq in Hc as <-. reflexivity.
Qed.

Lemma parse_tail_append s3 eq rest :
  parse_tail s3 = Some (eq, rest) ->
  exists ws2 tail,
    all_chars is_space ws2 = true
    /\ all_chars is_not_newline rest = true
    /\ (tail = EmptyString \/ exists t, tail = String "010" t)
    /\ s3 = ws2 ++ (if eq then "=" else EmptyString) ++ rest ++ tail
    /\ (eq = false -> ws2 = EmptyString -> rest = EmptyString /\ tail = EmptyString).
Proof.
  unfold parse_tail. intros Hp.
  pose proof (take_drop_while is_space s3) as Hs3.
  pose proof (all_chars_take_while is_space s3) as Hws.
  assert (Hno : match s3 with
                | EmptyString => Some (false, EmptyString)
                | String c _ =>
                    if is_space c
                    then Some (false, take_while is_not_newline (drop_while is_space s3))
                    else None
                end = Some (eq, rest) ->
                exists ws2 tail,
                  all_chars is_space ws2 = true
                  /\ all_chars is_not_newline rest = true
                  /\ (tail = EmptyString \/ exists t, tail = String "010" t)
                  /\ s3 = ws2 ++ (if eq then "=" else EmptyString) ++ rest ++ tail
                  /\ (eq = false -> ws2 = EmptyString ->
                      rest = EmptyString /\ tail = EmptyString)).
  { destruct s3 as [|c t]; [intros [= <- <-]; exists EmptyString, EmptyString; auto 10|].
    destruct (is_space c) eqn:Hc; [|discriminate]. intros [= <- <-].
    exists (take_while is_space (String c t)),
           (drop_while is_not_newline (drop_while is_space (String c t))).
    split; [exact Hws|]. split; [apply all_chars_take_while|].
    split; [apply drop_while_not_newline|]. split.
    - change (EmptyString ++ ?x) with x. now rewrite take_drop_while, Hs3.
    - intros _. cbn [take_while]. rewrite Hc. discriminate. }
  destruct (drop_while is_space s3) as [|c4 t4] eqn:E4; [now apply Hno|].
  destruct (Ascii.eqb "=" c4) eqn:Heq; [|now apply Hno].
  apply Ascii.eqb_eq in Heq as <-. inversion Hp; subst eq rest. clear Hp Hno.
  exists (take_while is_space s3), (drop_while is_not_newline t4).
  split; [exact Hws|]. split; [apply all_chars_take_while|].
  split; [apply drop_while_not_newline|]. split; [|discriminate].
  rewrite take_drop_while. now rewrite <- Hs3 at 1.
Qed.

(** X13.  What a match of [command_regex] says about the text.  The text is:
    an exclamation mark if group 1 matched; white space; the name (group 2),
    not empty and made of name characters; white space; an equals sign if
    group 3 matched; the remainder (group 4), which holds no line feed; and a
    tail that is empty or starts with a line feed and is ignored.  Without
    equals sign and without white space after the name, the name ends the
    text. *)
Theorem command_regex_match_decomposes (s : string) (m : captures) :
  re_match command_regex s = Some m ->
  exists ws1 name ws2 rest tail,
    group m 2 = Some name
    /\ group m 4 = Some rest
    /\ s = (if truthy (group m 1) then "!" else EmptyString) ++ ws1 ++ name ++ ws2
           ++ (if truthy (group m 3) then "=" else EmptyString) ++ rest ++ tail
    /\ all_chars is_space ws1 = true
    /\ name <> EmptyString
    /\ all_chars is_name_char name = true
    /\ all_chars is_space ws2 = true
    /\ all_chars is_not_newline rest = true
    /\ (tail = EmptyString \/ exists t, tail = String "010" t)
    /\ (truthy (group m 3) = false -> ws2 = EmptyString ->
        rest = EmptyString /\ tail = EmptyString).
Proof.
  intros Hm.
  destruct (command_regex_groups _ _ Hm) as (excl & name & eq & rest & Hp & -> & H2 & -> & H4).
  unfold parse_command in Hp.
  pose proof (split_excl_append s) as Hs.
  destruct (split_excl s) as [excl' s1]. cbn [fst snd] in Hs.
  pose proof (take_drop_while is_space s1) as Hs1.
  pose proof (take_drop_while is_name_char (drop_while is_space s1)) as Hs2.
  destruct (take_while is_name_char (drop_while is_space s1)) as [|c nm] eqn:Hname;
    [discriminate|].
  destruct (parse_tail (drop_while is_name_char (drop_while is_space s1)))
    as [[eq' rest']|] eqn:Ht; [|discriminate].
  inversion Hp; subst excl' name eq' rest'. clear Hp.
  destruct (parse_tail_append _ _ _ Ht) as (ws2 & tail & Hws2 & Hrest & Htail & Hs3 & Hend).
  exists (take_while is_space s1), (String c nm), ws2, rest, tail.
  split; [exact H2|]. split; [exact H4|]. split.
  - rewrite Hs at 1. rewrite <- Hs1 at 1. rewrite <- Hs2 at 1. rewrite Hs3 at 1.
    reflexivity.
  - split; [apply all_chars_take_while|]. split; [discriminate|].
    split; [rewrite <- Hname; apply all_chars_take_while|]. auto.
Qed.

Lemma parse_command_with_exclamation s :
  fst (split_excl s) = false ->
  parse_command (String "!" s)
  = match parse_command s with
    | Some (_, name, eq, rest) => Some (true, name, eq, rest)
    | None => None
    end.
Proof.
  unfold parse_command. intros Hs.
  change (split_excl (String "!" s)) with (true, s).
  destruct (split_excl s) as [excl s1] eqn:Hsplit. cbn [fst] in Hs. subst excl.
  assert (s1 = s) as ->.
  { unfold split_excl in Hsplit. destruct s as [|c t]; [now inversion Hsplit|].
    destruct (Ascii.eqb "!" c); now inversion Hsplit. }
  destruct (take_while is_name_char (drop_while is_space s)); [reflexivity|].
  destruct (parse_tail _) as [[eq rest]|]; reflexivity.
Qed.

Lemma parse_command_leading_space ws c t :
  all_chars is_space ws = true ->
  is_name_char c = true ->
  parse_command (ws ++ String c t) = parse_command (String c t).
Proof.
  intros Hws Hc. destruct ws as [|x ws']; [reflexivity|].
  pose proof Hws as Hws'. cbn [all_chars] in Hws. apply andb_prop in Hws as [Hx _].
  destruct (space_facts x Hx) as (_ & _ & Hex).
  destruct (name_char_facts c Hc) as (_ & _ & Hec).
  unfold parse_command, split_excl. rewrite append_String, Hex, Hec.
  rewrite <- append_String. now rewrite drop_while_app.
Qed.

(** A name, alone or followed by white space and arguments, parses as an
    action. *)
Lemma parse_command_action (name ws args : string) :
  name <> EmptyString ->
  all_chars is_name_char name = true ->
  all_chars is_space ws = true ->
  (ws = EmptyString -> args = EmptyString) ->
  (args = EmptyString
   \/ exists c t, args = String c t /\ is_space c = false /\ Ascii.eqb "=" c = false) ->
  parse_command (name ++ ws ++ args)
  = Some (false, name, false, take_while is_not_newline args).
Proof.
  intros Hne Hname Hws Hsep Hargs.
  destruct name as [|c name]; [congruence|]. clear Hne.
  pose proof Hname as Hname'. cbn [all_chars] in Hname.
  apply andb_prop in Hname as [Hc _].
  destruct (name_char_facts c Hc) as (Hsp & _ & Hex).
  assert (Hdrop : drop_while is_space args = args).
  { destruct Hargs as [-> | (a & t & -> & Ha & _)]; [reflexivity|].
    cbn [drop_while]. now rewrite Ha. }
  assert (Hstuck : drop_while is_name_char (ws ++ args) = ws ++ args).
  { destruct ws as [|x ws']; [now rewrite (Hsep eq_refl)|].
    cbn [all_chars] in Hws. apply andb_prop in Hws as [Hx _].
    rewrite append_String. cbn [drop_while].
    destruct (space_facts x Hx) as (-> & _). reflexivity. }
  unfold parse_command, split_excl. rewrite append_String, Hex.
  cbn [drop_while]. rewrite Hsp. rewrite <- append_String.
  rewrite take_while_app, drop_while_app by assumption.
  rewrite (take_while_stuck _ _ Hstuck), Hstuck, append_empty_r.
  unfold parse_tail. rewrite drop_while_app, Hdrop by assumption.
  destruct Hargs as [-> | (a & t & -> & Ha & Heq)].
  - change (ws ++ EmptyString) with (ws ++ EmptyString). rewrite append_empty_r.
    destruct ws as [|x ws']; [reflexivity|].
    cbn [all_chars] in Hws. apply andb_prop in Hws as [-> _]. reflexivity.
  - rewrite Heq. destruct ws as [|x ws']; [now specialize (Hsep eq_refl)|].
    cbn [all_chars] in Hws. apply andb_prop in Hws as [Hx _].
    rewrite append_String, Hx. reflexivity.
Qed.

Section ShapeFacts.
Context `{Host}.

(** X14.  Action commands.  A name alone, or a name, white space and
    arguments that do not begin with an equals sign, runs the action of that
    name on the arguments up to the end of the line, stripped.  With an
    exclamation mark in front it does so in the final message, and does
    nothing at all elsewhere. *)
Theorem action_commands_dispatch (name ws args : string) (b : bool)
    (loc : SourceLocation) (st : ExecutionState) :
  name <> EmptyString ->
  all_chars is_name_char name = true ->
  all_chars is_space ws = true ->
  (ws = EmptyString -> args = EmptyString) ->
  (args = EmptyString
   \/ exists c t, args = String c t /\ is_space c = false /\ Ascii.eqb "=" c = false) ->
  let raw_args := strip (take_while is_not_newline args) in
  _interpret_command (name ++ ws ++ args) b loc st = run_action false name raw_args loc st
  /\ _interpret_command ("!" ++ name ++ ws ++ args) true loc st
     = run_action true name raw_args loc st
  /\ _interpret_command ("!" ++ name ++ ws ++ args) false loc st = Ok RNone st.
Proof.
  intros Hne Hname Hws Hsep Hargs raw_args.
  pose proof (parse_command_action name ws args Hne Hname Hws Hsep Hargs) as Hp.
  assert (Hp' : parse_command ("!" ++ name ++ ws ++ args)
                = Some (true, name, false, take_while is_not_newline args)).
  { change ("!" ++ name ++ ws ++ args) with (String "!" (name ++ ws ++ args)).
    rewrite parse_command_with_exclamation, Hp; [reflexivity|].
    destruct name as [|c name]; [congruence|].
    cbn [all_chars] in Hname. apply andb_prop in Hname as [Hc _].
    destruct (name_char_facts c Hc) as (_ & _ & Hex).
    rewrite append_String. unfold split_excl. now rewrite Hex. }
  repeat split.
  - now rewrite interpret_command_parsed, Hp.
  - now rewrite interpret_command_parsed, Hp'.
  - now rewrite interpret_command_parsed, Hp'.
Qed.

(** X15.  The exclamation mark has to be the first character.  White space
    before it, or a second exclamation mark after it, makes the text fail
    the pattern: the command is reported as unknown-command and nothing is
    run, in every pass. *)
Theorem exclamation_mark_must_come_first (ws t : string) (b : bool)
    (loc : SourceLocation) (st : ExecutionState) :
  ws <> EmptyString ->
  all_chars is_space ws = true ->
  re_match command_regex (ws ++ String "!" t) = None
  /\ re_match command_regex (String "!" (String "!" t)) = None
  /\ _interpret_command (ws ++ String "!" t) b loc st
     = Ok RNone
         (set_log
            (log_error "unknown-command"
               ("couldn't interpret command '" ++ (ws ++ String "!" t) ++ "'")
               loc (log st)) st).
Proof.
  intros Hne Hws.
  assert (Hp : parse_command (ws ++ String "!" t) = None).
  { destruct ws as [|x ws']; [congruence|].
    pose proof Hws as Hws'. cbn [all_chars] in Hws. apply andb_prop in Hws as [Hx _].
    destruct (space_facts x Hx) as (_ & _ & Hex).
    unfold parse_command, split_excl. rewrite append_String, Hex.
    rewrite <- append_String, drop_while_app by assumption. reflexivity. }
  split; [|split].
  - now rewrite command_regex_parse, Hp.
  - rewrite command_regex_parse. reflexivity.
  - now rewrite interpret_command_parsed, Hp.
Qed.

End ShapeFacts.

(** *** [config_root_regex] and [command_regex] *)

Lemma strip_prefix_Some l s t : strip_prefix l s = Some t -> s = l ++ t.
Proof.
  revert s. induction l as [|a l IH]; intros s; cbn [strip_prefix].
  - now intros [= ->].
  - destruct s as [|b s]; [discriminate|].
    destruct (Ascii.eqb a b) eqn:E; [|discriminate].
    apply Ascii.eqb_eq in E as <-. intros Hs. now rewrite append_String, <- (IH _ Hs).
Qed.

(** X16.  Every text that the scan for [config_root = true] accepts is, for
    the interpreter, an assignment without exclamation mark to [config_root]
    or to [prapti.config_root]; what the interpreter would assign is the text
    after the equals sign up to the end of the line, which begins with [true]
    only if no line feed comes before it, and may go on after it.  The scan
    accepts no text that begins with an exclamation mark. *)
Theorem config_root_texts_are_assignments :
  (forall (s : string) (m' : captures),
      re_match config_root_regex s = Some m' ->
      exists (m : captures) (ws tail : string),
        re_match command_regex s = Some m
        /\ truthy (group m 1) = false
        /\ (group m 2 = Some "config_root" \/ group m 2 = Some "prapti.config_root")
        /\ group m 3 = Some "="
        /\ all_chars is_space ws = true
        /\ group m 4 = Some (take_while is_not_newline (ws ++ "true" ++ tail)))
  /\ (forall t : string, re_match config_root_regex (String "!" t) = None).
Proof.
  split.
  - intros s m' Hm'.
    assert (Htext : config_root_text s = true)
      by (rewrite <- config_root_regex_text, Hm'; reflexivity).
    unfold config_root_text in Htext.
    pose proof (take_drop_while is_space s) as Hs.
    pose proof (all_chars_take_while is_space s) as Hws1.
    set (s1 := drop_while is_space s) in *.
    assert (Hname : exists name s3,
               (name = "config_root" \/ name = "prapti.config_root")
               /\ s1 = name ++ s3
               /\ strip_prefix "config_root"
                    (match strip_prefix "prapti." s1 with Some u => u | None => s1 end)
                  = Some s3).
    { destruct (strip_prefix "prapti." s1) as [u|] eqn:Hpre.
      - destruct (strip_prefix "config_root" u) as [s3|] eqn:Hcr; [|discriminate].
        exists "prapti.config_root", s3. split; [now right|]. split; [|reflexivity].
        rewrite (strip_prefix_Some _ _ _ Hpre), (strip_prefix_Some _ _ _ Hcr). reflexivity.
      - destruct (strip_prefix "config_root" s1) as [s3|] eqn:Hcr; [|discriminate].
        exists "config_root", s3. split; [now left|]. split; [|reflexivity].
        exact (strip_prefix_Some _ _ _ Hcr). }
    destruct Hname as (name & s3 & Hname & Hs1 & Hcr). rewrite Hcr in Htext.
    pose proof (take_drop_while is_space s3) as Hs3.
    pose proof (all_chars_take_while is_space s3) as Hws2.
    destruct (drop_while is_space s3) as [|c s4] eqn:E3; [discriminate|].
    apply andb_prop in Htext as [Heq Htrue]. apply Ascii.eqb_eq in Heq as <-.
    pose proof (take_drop_while is_space s4) as Hs4.
    pose proof (all_chars_take_while is_space s4) as Hws3.
    destruct (strip_prefix "true" (drop_while is_space s4)) as [tail|] eqn:Et;
      [|discriminate].
    apply strip_prefix_Some in Et.
    assert (Hp : parse_command s = Some (false, name, true, take_while is_not_newline s4)).
    { rewrite <- Hs, Hs1, <- Hs3.
      assert (Hn : name <> EmptyString /\ all_chars is_name_char name = true)
        by (destruct Hname as [-> | ->]; split; (discriminate || reflexivity)).
      destruct Hn as [Hne Hall].
      destruct name as [|c nm] eqn:En; [congruence|].
      rewrite append_String, parse_command_leading_space;
        [|apply all_chars_take_while | cbn [all_chars] in Hall; now apply andb_prop in Hall].
      rewrite <- append_String.
      change (String "=" s4) with ("=" ++ s4).
      now apply parse_command_assignment. }
    exists (caps_command (false, name, true, take_while is_not_newline s4)),
           (take_while is_space s4), tail.
    split; [now rewrite command_regex_parse, Hp|].
    split; [reflexivity|]. split; [destruct Hname as [-> | ->]; auto|].
    split; [reflexivity|]. split; [exact Hws3|].
    cbn [caps_command group app Nat.eqb]. now rewrite <- Et, Hs4.
  - intros t.
    pose proof (config_root_regex_text (String "!" t)) as Ht.
    destruct (re_match config_root_regex (String "!" t)); [|reflexivity].
    cbn [matched] in Ht. unfold config_root_text in Ht. cbn [drop_while] in Ht.
    replace (is_space "!") with false in Ht by reflexivity.
    cbn [strip_prefix] in Ht. discriminate.
Qed.

(** *** [TestResponder.generate_responses] *)

Section TestResponderFacts.
Variable repr : Configuration -> string.

Lemma generate_responses_runs input_ context st p r :
  rc_plugin_config context = Some p ->
  rc_responder_config context = Some r ->
  generate_responses repr input_ context st
  = Ok [new_Message "assistant" None [TextItem "Test!"]]
      (set_test_exfil
         (<["test_responder_resolved_responder_config" :=
              resolve_var_refs r (root_config st) []]>
            (<["test_responder_resolved_plugin_config" :=
                 resolve_var_refs p (root_config st) []]> (test_exfil st)))
         (set_log
            (log_debug
               ("prapti.test.test_responder: resolved: responder_config = "
                ++ repr (resolve_var_refs r (root_config st) []))
               (input_file_path st)
               (log_debug
                  ("prapti.test.test_responder: input: responder_config = " ++ repr r)
                  (input_file_path st)
                  (log_debug
                     ("prapti.test.test_responder: resolved: plugin_config = "
                      ++ repr (resolve_var_refs p (root_config st) []))
                     (input_file_path st)
                     (log_debug
                        ("prapti.test.test_responder: input: plugin_config = " ++ repr p)
                        (input_file_path st) (log st)))))
            st)).
Proof. intros Hp Hr. unfold generate_responses. rewrite Hp, Hr. reflexivity. Qed.

(** X17.  A call of [generate_responses] that returns gives the one message
    [Test!] of role assistant whatever the input is, leaves the root
    configuration as it was, and adds four debug entries to the log.  Called
    again (on any input) it returns the same message and leaves in
    [test_exfil] exactly what the first call left there. *)
Theorem generate_responses_repeatable (input_ input_' : list (Ref Message))
    (context : ResponderContext) (st st1 : ExecutionState) (rs : list Message) :
  generate_responses repr input_ context st = Ok rs st1 ->
  rs = [new_Message "assistant" None [TextItem "Test!"]]
  /\ root_config st1 = root_config st
  /\ List.length (log st1) = List.length (log st) + 4
  /\ exists st2,
       generate_responses repr input_' context st1 = Ok rs st2
       /\ test_exfil st2 = test_exfil st1
       /\ root_config st2 = root_config st.
Proof.
  intros Hrun.
  destruct (rc_plugin_config context) as [p|] eqn:Hp;
    [|unfold generate_responses in Hrun; rewrite Hp in Hrun; discriminate].
  destruct (rc_responder_config context) as [r|] eqn:Hr;
    [|unfold generate_responses in Hrun; rewrite Hp, Hr in Hrun; discriminate].
  rewrite (generate_responses_runs input_ context st p r Hp Hr) in Hrun.
  inversion Hrun; subst rs st1. clear Hrun.
  split; [reflexivity|]. split; [reflexivity|]. split.
  - cbn [log set_log set_test_exfil]. unfold log_debug.
    rewrite !length_app. cbn [List.length]. lia.
  - eexists. split; [apply (generate_responses_runs input_' context _ p r Hp Hr)|].
    split; [|reflexivity].
    cbn [test_exfil set_test_exfil set_log root_config].
    apply map_eq. intros k. rewrite !lookup_insert.
    repeat case_decide; reflexivity.
Qed.

(** X18.  [generate_responses] returns exactly when the context carries both
    a plugin configuration and a responder configuration.  Without a plugin
    configuration the assertion fails before anything is done.  With a plugin
    configuration but no responder configuration it fails half way: two debug
    entries are in the log and the resolved plugin configuration is in
    [test_exfil]. *)
Theorem generate_responses_asserts_configurations (input_ : list (Ref Message))
    (context : ResponderContext) (st : ExecutionState) :
  ((exists rs st', generate_responses repr input_ context st = Ok rs st')
   <-> is_Some (rc_plugin_config context) /\ is_Some (rc_responder_config context))
  /\ (rc_plugin_config context = None ->
      generate_responses repr input_ context st = Exn AssertionError st)
  /\ (forall p,
        rc_plugin_config context = Some p ->
        rc_responder_config context = None ->
        exists st' lg,
          generate_responses repr input_ context st = Exn AssertionError st'
          /\ List.length (log st') = List.length (log st) + 2
          /\ test_exfil st' !! "test_responder_resolved_plugin_config"
             = Some (resolve_var_refs p (root_config st) lg)
          /\ test_exfil st' !! "test_responder_resolved_responder_config"
             = test_exfil st !! "test_responder_resolved_responder_config").
Proof.
  split; [|split].
  - split.
    + intros (rs & st' & Hrun). unfold generate_responses in Hrun.
      destruct (rc_plugin_config context) as [p|]; [|discriminate].
      destruct (rc_responder_config context) as [r|]; [|discriminate].
      split; eexists; reflexivity.
    + intros [[p Hp] [r Hr]]. rewrite (generate_responses_runs _ _ _ p r Hp Hr). eauto.
  - intros Hp. unfold generate_responses. now rewrite Hp.
  - intros p Hp Hr. unfold generate_responses. rewrite Hp, Hr.
    do 2 eexists. split; [reflexivity|].
    cbn [log set_log set_test_exfil test_exfil]. unfold log_debug.
    split; [rewrite !length_app; cbn [List.length]; lia|].
    split; [apply lookup_insert_eq|]. now apply lookup_insert_ne.
Qed.

End TestResponderFacts.

(** ** The further properties on samples *)

Ltac by_cases_on_member H :=
  repeat (destruct H as [<-|H]; [vm_compute in *; congruence|]); destruct H.

(** X2 on a sample: a private prompt message, a user message and a message
    of an unknown role between two prompt messages. *)
Lemma prompt_is_concatenation_of_prompt_messages_witness :
  convert_message_sequence_to_text_prompt SampleProse.place
    [SampleProse.opening; SampleProse.secret; SampleProse.chat; SampleProse.odd;
     SampleProse.closing] []
  = Ok "Once upon a time"
      [mkDiagnostic LWarning (Some "unsupported-chat-role")
         "message will not be included in LLM prompt. role 'user' is not supported. use '### @prompt:'."
         (AtLocation (mkSourceLocation "story.md" 3 0));
       mkDiagnostic LWarning (Some "unrecognised-public-role")
         "message will not be included in LLM prompt. public role 'narrator' is not recognised."
         (AtLocation (mkSourceLocation "story.md" 4 0))].
Proof.
  rewrite prompt_is_concatenation_of_prompt_messages; [reflexivity|].
  intros m Hin Hp Hr. by_cases_on_member Hin.
Defined.

(** X3 on a sample: a prompt message with two strings after a user
    message. *)
Lemma unflattened_prompt_message_fails_assertion_witness :
  convert_message_sequence_to_text_prompt SampleProse.place
    ([SampleProse.opening; SampleProse.chat] ++ SampleProse.broken :: [SampleProse.closing])
    []
  = Exn AssertionError
      [mkDiagnostic LWarning (Some "unsupported-chat-role")
         "message will not be included in LLM prompt. role 'user' is not supported. use '### @prompt:'."
         (AtLocation (mkSourceLocation "story.md" 3 0))].
Proof.
  rewrite unflattened_prompt_message_fails_assertion; try reflexivity.
  intros m Hin Hp Hr. by_cases_on_member Hin.
Defined.

(** X5 on samples: on a state without core state the call raises
    TypeError; on the sample state the function of [boom] raises. *)
Lemma run_action_raises_only_from_the_action_witness :
  run_action (H := Sample.host) false "boom" "now" (Sample.at_line 1) Sample.bare_state
  = Exn TypeError Sample.bare_state
  /\ run_action (H := Sample.host) false "boom" "now" (Sample.at_line 1) Sample.state0
     = Exn (Raised "RuntimeError") Sample.state0
  /\ action_raises (H := Sample.host) false "boom" "now" (Sample.at_line 1) Sample.state0
       (Raised "RuntimeError") Sample.state0.
Proof.
  assert (Hrun : run_action (H := Sample.host) false "boom" "now" (Sample.at_line 1)
                   Sample.state0
                 = Exn (Raised "RuntimeError") Sample.state0) by (vm_compute; reflexivity).
  split; [|split; [exact Hrun|]].
  - exact (proj1 (run_action_raises_only_from_the_action (H := Sample.host) false "boom"
                    "now" (Sample.at_line 1) Sample.bare_state Sample.bare_state TypeError)
             eq_refl).
  - exact (proj1 (proj2 (run_action_raises_only_from_the_action (H := Sample.host) false
                           "boom" "now" (Sample.at_line 1) Sample.state0 Sample.state0
                           (Raised "RuntimeError")))
             Hrun).
Defined.

(** X6 on a sample: the pass over [boom] raises what the function raised. *)
Lemma pass_raises_only_from_collaborators_witness :
  interpret_commands (H := Sample.host) [Sample.message 10 [Sample.command 1 "boom"]]
    false Sample.world0
  = Exn (Raised "RuntimeError") Sample.world0
  /\ ((Raised "RuntimeError" = IndexError
       /\ [Sample.message 10 [Sample.command 1 "boom"]] = []
       /\ false = true
       /\ Sample.world0 = Sample.world0)
      \/ (exists (m : Ref Message) (c : Ref Command) (is_final_message : bool)
                 (w1 : World) (st' : ExecutionState) (excl : bool) (name : string)
                 (eq : bool) (rest : string),
            reaches (H := Sample.host) [Sample.message 10 [Sample.command 1 "boom"]]
              false Sample.world0 m c is_final_message w1
            /\ Sample.world0 = mkWorld st' (results w1)
            /\ parse_command (text (obj c)) = Some (excl, name, eq, rest)
            /\ (excl = false \/ is_final_message = true)
            /\ if eq
               then is_empty (strip rest) = false
                    /\ assignment_raises (H := Sample.host) name (strip rest)
                         (source_loc (obj c)) (state w1) (Raised "RuntimeError") st'
               else action_raises (H := Sample.host) excl name (strip rest)
                      (source_loc (obj c)) (state w1) (Raised "RuntimeError") st')).
Proof.
  assert (Hrun : interpret_commands (H := Sample.host)
                   [Sample.message 10 [Sample.command 1 "boom"]] false Sample.world0
                 = Exn (Raised "RuntimeError") Sample.world0) by (vm_compute; reflexivity).
  split; [exact Hrun|].
  apply (proj1 (pass_raises_only_from_collaborators (H := Sample.host)
                  [Sample.message 10 [Sample.command 1 "boom"]] false Sample.world0
                  Sample.world0 (Raised "RuntimeError"))).
  exact Hrun.
Defined.

(** X7 on a sample: command 2 is not in the sequence and keeps its result. *)
Lemma pass_writes_only_visited_results_witness :
  results
    (outcome_world
       (interpret_commands (H := Sample.host)
          [Sample.message 10 [Sample.command 1 "act_name hello"]] false
          (mkWorld Sample.state0 (<[2 := RStr "kept"]> ∅))))
  !! 2
  = Some (RStr "kept").
Proof.
  rewrite (pass_writes_only_visited_results (H := Sample.host)); [reflexivity|].
  vm_compute. intuition discriminate.
Defined.

(** X8 on a sample: the last message is disabled. *)
Lemma disabled_last_message_defers_everything_witness :
  interpret_commands (H := Sample.host) SampleProse.closed_document true Sample.world0
  = interpret_commands (H := Sample.host) SampleProse.closed_document false Sample.world0.
Proof.
  apply (disabled_last_message_defers_everything (H := Sample.host)
           SampleProse.closed_document
           (mkRef 20 (mkMessage "user" None [Sample.command 3 "!respond later"] false false)));
    [reflexivity | reflexivity |].
  intros m Hin Hen. by_cases_on_member Hin.
Defined.

(** X9 on a sample: a document read in two parts. *)
Lemma passes_compose_witness :
  interpret_commands (H := Sample.host)
    ([Sample.message 10 [Sample.command 1 "an_int = 42"]]
     ++ [Sample.message 20 [Sample.command 2 "!respond now"]])
    true Sample.world0
  = (interpret_commands (H := Sample.host)
       [Sample.message 10 [Sample.command 1 "an_int = 42"]] false ;;
     interpret_commands (H := Sample.host)
       [Sample.message 20 [Sample.command 2 "!respond now"]] true) Sample.world0.
Proof.
  apply (proj2 (passes_compose (H := Sample.host)
                  [Sample.message 10 [Sample.command 1 "an_int = 42"]]
                  [Sample.message 20 [Sample.command 2 "!respond now"]] Sample.world0)
           (Sample.message 20 [Sample.command 2 "!respond now"]) eq_refl).
  intros m Hin Hen. by_cases_on_member Hin.
Defined.

(** X13 on a sample. *)
Lemma command_regex_match_decomposes_witness :
  exists m ws1 name ws2 rest tail,
    re_match command_regex "!  act	hello world
and more" = Some m
    /\ group m 2 = Some name
    /\ group m 4 = Some rest
    /\ "!  act	hello world
and more"
       = (if truthy (group m 1) then "!" else EmptyString) ++ ws1 ++ name ++ ws2
         ++ (if truthy (group m 3) then "=" else EmptyString) ++ rest ++ tail
    /\ name = "act" /\ rest = "hello world".
Proof.
  eexists.
  assert (Hm : re_match command_regex "!  act	hello world
and more" = Some (caps_command (true, "act", false, "hello world")))
    by (vm_compute; reflexivity).
  destruct (command_regex_match_decomposes _ _ Hm)
    as (ws1 & name & ws2 & rest & tail & H2 & H4 & Hs & _).
  exists ws1, name, ws2, rest, tail.
  split; [exact Hm|]. split; [exact H2|]. split; [exact H4|]. split; [exact Hs|].
  cbn in H2, H4. split; congruence.
Defined.

(** X14 on a sample: [act_name hello]. *)
Lemma action_commands_dispatch_witness :
  _interpret_command (H := Sample.host) ("act_name" ++ " " ++ "hello") false
    (Sample.at_line 1) Sample.state0
  = run_action (H := Sample.host) false "act_name" "hello" (Sample.at_line 1) Sample.state0
  /\ _interpret_command (H := Sample.host) ("!" ++ "act_name" ++ " " ++ "hello") true
       (Sample.at_line 1) Sample.state0
     = run_action (H := Sample.host) true "act_name" "hello" (Sample.at_line 1) Sample.state0
  /\ _interpret_command (H := Sample.host) ("!" ++ "act_name" ++ " " ++ "hello") false
       (Sample.at_line 1) Sample.state0
     = Ok RNone Sample.state0.
Proof.
  apply (action_commands_dispatch (H := Sample.host) "act_name" " " "hello" false
           (Sample.at_line 1) Sample.state0);
    try reflexivity; try discriminate.
  right. exists "h"%char, "ello". repeat split; reflexivity.
Defined.

(** X15 on a sample: a blank before the exclamation mark. *)
Lemma exclamation_mark_must_come_first_witness :
  re_match command_regex (" " ++ String "!" "respond now") = None
  /\ re_match command_regex (String "!" (String "!" "respond now")) = None
  /\ _interpret_command (H := Sample.host) (" " ++ String "!" "respond now") true
       (Sample.at_line 1) Sample.state0
     = Ok RNone
         (set_log
            (log_error "unknown-command"
               ("couldn't interpret command '" ++ (" " ++ String "!" "respond now") ++ "'")
               (Sample.at_line 1) (log Sample.state0)) Sample.state0).
Proof.
  apply (exclamation_mark_must_come_first (H := Sample.host) " " "respond now" true
           (Sample.at_line 1) Sample.state0); [discriminate | reflexivity].
Defined.

(** X16 on a sample: the scan accepts a text whose value is not [true]. *)
Lemma config_root_texts_are_assignments_witness :
  exists m' m ws tail,
    re_match config_root_regex "prapti.config_root = truest" = Some m'
    /\ re_match command_regex "prapti.config_root = truest" = Some m
    /\ truthy (group m 1) = false
    /\ (group m 2 = Some "config_root" \/ group m 2 = Some "prapti.config_root")
    /\ group m 3 = Some "="
    /\ all_chars is_space ws = true
    /\ group m 4 = Some (take_while is_not_newline (ws ++ "true" ++ tail))
    /\ group m 4 = Some " truest".
Proof.
  eexists.
  assert (Hm' : re_match config_root_regex "prapti.config_root = truest"
                = Some [(4, "true"); (3, "="); (2, "config_root"); (1, "prapti.")])
    by (vm_compute; reflexivity).
  destruct (proj1 config_root_texts_are_assignments _ _ Hm')
    as (m & ws & tail & Hm & H1 & H2 & H3 & Hws & H4).
  exists m, ws, tail. repeat split; try assumption.
  assert (Hc : re_match command_regex "prapti.config_root = truest"
               = Some (caps_command (false, "prapti.config_root", true, " truest")))
    by (vm_compute; reflexivity).
  rewrite Hc in Hm. inversion Hm. reflexivity.
Defined.

(** X17 on a sample. *)
Lemma generate_responses_repeatable_witness :
  exists st1 st2,
    generate_responses Sample.repr [] Sample.responder_context Sample.state0
    = Ok [new_Message "assistant" None [TextItem "Test!"]] st1
    /\ List.length (log st1) = 4
    /\ generate_responses Sample.repr Sample.document Sample.responder_context st1
       = Ok [new_Message "assistant" None [TextItem "Test!"]] st2
    /\ test_exfil st2 = test_exfil st1.
Proof.
  eexists.
  assert (Hrun : generate_responses Sample.repr [] Sample.responder_context Sample.state0
                 = Ok [new_Message "assistant" None [TextItem "Test!"]]
                     (outcome_state
                        (generate_responses Sample.repr [] Sample.responder_context
                           Sample.state0)))
    by reflexivity.
  destruct (generate_responses_repeatable Sample.repr [] Sample.document _ _ _ _ Hrun)
    as (_ & _ & Hlen & st2 & Hrun2 & Hexfil & _).
  exists st2. split; [exact Hrun|]. split; [exact Hlen|]. split; [exact Hrun2 | exact Hexfil].
Defined.
